(** * The session-aware Synology client: settings holder, session manager,
      failure classifier and call proxy of
      [src/common/apis/synology/client.ts].

    The class [SynologyClient] keeps three private mutable fields
    ([loginPromise], [settingsVersion], [settings]) and a listener list.
    Its methods are asynchronous; JavaScript runs each of them without
    interruption up to the next [await], where other tasks sharing the client
    may run.  A task is therefore modelled as a function of the client state
    and of a _script_: the list of what the other tasks did to the client
    during each suspension of the task, in order.  When the script is used up
    the task is still suspended ([Pending]).  A run records the events of the
    task, the client state it leaves and how it settled.

    The request functions ([Auth.Login], [Auth.Logout], the wrapped endpoint
    function [fn]) belong to the transport side and are parameters: for each
    request they say how its promise settles.  Login promises are numbered in
    the order of their creation, so that two requests for the same promise
    are told apart from requests for another one.  [settingsVersion] is a
    JavaScript number that only ever counts up from 0; it is a [nat] here. *)

From Stdlib Require Import List String ZArith Bool Arith Lia.
From Stdlib Require Import Permutation.
Import ListNotations.
Local Open Scope list_scope.

(** ** Values exchanged with the transport layer ([./shared], [./Auth]) *)

(** Errors thrown by the transport: the three classes the classifier tells
    apart with [instanceof], and everything else. *)
Inductive JsError : Type :=
| BadResponseError (status : Z)
| NetworkError
| TimeoutError
| OtherError (message : string).

(** [RestApiResponse<T>]: [{success: true, data}] or
    [{success: false, error: {code}}]. *)
Inductive RestApiResponse (T : Type) : Type :=
| RestSuccess (data : T)
| RestFailure (code : Z).
Arguments RestSuccess {T} data.
Arguments RestFailure {T} code.

Record AuthLoginResponse : Type := { sid : string }.

Definition NO_SUCH_METHOD_ERROR_CODE : Z := 103.
Definition NO_PERMISSIONS_ERROR_CODE : Z := 105.
Definition SESSION_TIMEOUT_ERROR_CODE : Z := 106.

(** ** Settings *)

(** [SynologyClientSettings], all four fields present. *)
Record SynologyClientSettings : Type := {
  baseUrl : string;
  account : string;
  passwd : string;
  session : string
}.

(** [Partial<SynologyClientSettings>]: a missing field reads [undefined]. *)
Record PartialSettings : Type := {
  baseUrl_opt : option string;
  account_opt : option string;
  passwd_opt : option string;
  session_opt : option string
}.

Inductive SettingName : Type := k_baseUrl | k_account | k_passwd | k_session.

Definition SETTING_NAME_KEYS : list SettingName :=
  [k_baseUrl; k_account; k_passwd; k_session].

(** [settings[k]] *)
Definition field (s : PartialSettings) (k : SettingName) : option string :=
  match k with
  | k_baseUrl => baseUrl_opt s
  | k_account => account_opt s
  | k_passwd => passwd_opt s
  | k_session => session_opt s
  end.

(** [a === b] on [string | undefined]. *)
Definition strict_eq (a b : option string) : bool :=
  match a, b with
  | None, None => true
  | Some x, Some y => String.eqb x y
  | _, _ => false
  end.

(** ** Results *)

Inductive FailureType : Type :=
| probable_wrong_protocol
| probable_wrong_url_or_no_connection_or_cert_error
| timeout
| unknown.

Inductive ConnectionFailure : Type :=
| missing_config
| transport_failure (type : FailureType) (error : JsError).

(** [ConnectionFailure.from] *)
Definition ConnectionFailure_from (error : JsError) : ConnectionFailure :=
  match error with
  | BadResponseError status =>
      if (status =? 400)%Z then transport_failure probable_wrong_protocol error
      else transport_failure unknown error
  | NetworkError =>
      transport_failure probable_wrong_url_or_no_connection_or_cert_error error
  | TimeoutError => transport_failure timeout error
  | OtherError _ => transport_failure unknown error
  end.

(** [ClientFailureResponse]: a failure response with its [apiGroup]. *)
Record ClientFailureResponse : Type := {
  error_code : Z;
  apiGroup : string
}.

(** [ClientRequestResult<T> = ClientResponse<T> | ConnectionFailure] *)
Inductive ClientRequestResult (T : Type) : Type :=
| ClientSuccess (data : T)
| ClientFailure (f : ClientFailureResponse)
| Connection (f : ConnectionFailure).
Arguments ClientSuccess {T} data.
Arguments ClientFailure {T} f.
Arguments Connection {T} f.

(** [ClientRequestResult.from] *)
Definition ClientRequestResult_from {T} (response : RestApiResponse T)
    (group : string) : ClientRequestResult T :=
  match response with
  | RestSuccess data => ClientSuccess data
  | RestFailure code => ClientFailure {| error_code := code; apiGroup := group |}
  end.

(** [ClientRequestResult.isConnectionFailure]: the value has a [type] and no
    [success] field. *)
Definition isConnectionFailure {T} (result : ClientRequestResult T) : bool :=
  match result with
  | Connection _ => true
  | _ => false
  end.

(** ** Promises *)

(** How a promise settles. *)
Inductive Settled (A : Type) : Type :=
| Fulfils (a : A)
| Rejects (e : JsError).
Arguments Fulfils {A} a.
Arguments Rejects {A} e.

(** A listener is a function object; only its identity matters here. *)
Definition Listener : Type := nat.

(** What a task does that can be observed: the requests it makes
    ([EvAuthLogin] for login promise [p], [EvAuthLogout]), each entry into
    [wrappedFunction] with its flag ([EvEnter]), each invocation of the
    wrapped endpoint function ([EvFn], with the number of the login promise
    whose session id it is given), and each call of a settings-change
    listener ([EvListener]). *)
Inductive Event : Type :=
| EvAuthLogin (p : nat) (s : SynologyClientSettings) (version : Z)
| EvAuthLogout (url : string) (sid_ : string) (session_ : string)
| EvEnter (shouldRetryRoutineFailures : bool)
| EvFn (url : option string) (sid_ : string) (login : option nat)
| EvListener (l : Listener).

(** A promise under construction: the requests made by its callbacks, and its
    settlement. *)
Record Promise (A : Type) : Type := {
  effects : list Event;
  settled : Settled A
}.
Arguments effects {A} _.
Arguments settled {A} _.

Definition promise_of {A} (s : Settled A) : Promise A :=
  {| effects := []; settled := s |}.

(** [p.then(f)] with [f] returning a promise *)
Definition then_ {A B} (p : Promise A) (f : A -> Promise B) : Promise B :=
  match settled p with
  | Fulfils a =>
      {| effects := effects p ++ effects (f a); settled := settled (f a) |}
  | Rejects e => {| effects := effects p; settled := Rejects e |}
  end.

(** [p.then(f)] with [f] returning a value *)
Definition then_value {A B} (p : Promise A) (f : A -> B) : Promise B :=
  then_ p (fun a => promise_of (Fulfils (f a))).

(** [p.catch(h)] *)
Definition catch_ {A} (p : Promise A) (h : JsError -> A) : Promise A :=
  match settled p with
  | Fulfils a => p
  | Rejects e => {| effects := effects p; settled := Fulfils (h e) |}
  end.

(** ** The client object *)

(** The promise stored in [loginPromise]: its identity and the settings its
    callbacks captured ([baseUrl], [restSettings]). *)
Record LoginPromise : Type := {
  pid : nat;
  captured : SynologyClientSettings
}.

Record SynologyClient : Type := {
  loginPromise : option LoginPromise;
  settingsVersion : nat;
  onSettingsChangeListeners : list Listener;
  settings : PartialSettings;
  (** number of login promises created so far: the identity of the next *)
  allocated : nat
}.

(** [new SynologyClient(settings)] *)
Definition new_SynologyClient (s : PartialSettings) : SynologyClient :=
  {| loginPromise := None;
     settingsVersion := 0;
     onSettingsChangeListeners := [];
     settings := s;
     allocated := 0 |}.

Definition set_loginPromise (p : option LoginPromise) (c : SynologyClient)
    : SynologyClient :=
  {| loginPromise := p;
     settingsVersion := settingsVersion c;
     onSettingsChangeListeners := onSettingsChangeListeners c;
     settings := settings c;
     allocated := allocated c |}.

Definition set_listeners (ls : list Listener) (c : SynologyClient)
    : SynologyClient :=
  {| loginPromise := loginPromise c;
     settingsVersion := settingsVersion c;
     onSettingsChangeListeners := ls;
     settings := settings c;
     allocated := allocated c |}.

(** [getValidatedSettings] *)
Definition nonEmpty (v : option string) : bool :=
  match v with
  | Some x => 0 <? String.length x
  | None => false
  end.

Definition getValidatedSettings (c : SynologyClient)
    : option SynologyClientSettings :=
  if forallb (fun k => nonEmpty (field (settings c) k)) SETTING_NAME_KEYS then
    match settings c with
    | {| baseUrl_opt := Some b; account_opt := Some a;
         passwd_opt := Some p; session_opt := Some s |} =>
        Some {| baseUrl := b; account := a; passwd := p; session := s |}
    | _ => None
    end
  else None.

(** [onSettingsChange]: pushes the listener; the returned closure owns the
    flag [isSubscribed]. *)
Record Subscription : Type := {
  sub_listener : Listener;
  isSubscribed : bool
}.

Definition onSettingsChange (listener : Listener) (c : SynologyClient)
    : SynologyClient * Subscription :=
  (set_listeners (onSettingsChangeListeners c ++ [listener]) c,
   {| sub_listener := listener; isSubscribed := true |}).

(** Calling the closure returned by [onSettingsChange]. *)
Definition unsubscribe (sub : Subscription) (c : SynologyClient)
    : SynologyClient * Subscription :=
  if isSubscribed sub then
    (set_listeners
       (filter (fun l => negb (l =? sub_listener sub))
               (onSettingsChangeListeners c)) c,
     {| sub_listener := sub_listener sub; isSubscribed := false |})
  else (c, sub).

(** ** Tasks *)

(** What the other tasks sharing the client can do to it while a task is
    suspended.  The fields are private, so they change only through the
    synchronous prefixes of the class's own methods. *)
Inductive Action : Type :=
| ActUpdateSettings (s : PartialSettings)
| ActLogin
| ActLogout
| ActDiscardLogin
| ActSubscribe (l : Listener)
| ActUnsubscribe (l : Listener).

(** The state of a task after a prefix of the environment's behaviour. *)
Inductive Status (R : Type) : Type :=
| Pending
| Resolved (r : R)
| Rejected (e : JsError).
Arguments Pending {R}.
Arguments Resolved {R} r.
Arguments Rejected {R} e.

Record Run (R : Type) : Type := {
  trace : list Event;
  final : SynologyClient;
  status : Status R
}.
Arguments trace {R} _.
Arguments final {R} _.
Arguments status {R} _.

Definition stop {R} (c : SynologyClient) (st : Status R) : Run R :=
  {| trace := []; final := c; status := st |}.

Definition emit {R} (evs : list Event) (r : Run R) : Run R :=
  {| trace := evs ++ trace r; final := final r; status := status r |}.

(** The handle [maybeLogin] gives back: the failure it returns at once, or
    the shared login promise. *)
Inductive LoginHandle : Type :=
| Immediate (f : ConnectionFailure)
| Shared (p : LoginPromise).

Definition login_of (h : LoginHandle) : option nat :=
  match h with
  | Immediate _ => None
  | Shared p => Some (pid p)
  end.

(** [maybeLogout] returns [ClientRequestResult<{}> | "not-logged-in"]. *)
Inductive LogoutResult : Type :=
| not_logged_in
| logout_result (r : ClientRequestResult unit).

(** The locals of [maybeLogout] that survive its synchronous prefix. *)
Record LogoutFrame : Type := {
  stashedLoginPromise : option LoginPromise;
  validated : option SynologyClientSettings
}.

(** A function returning a promise may also throw before returning it. *)
Inductive Called (A : Type) : Type :=
| ThrowsNow (e : JsError)
| Returns (p : Settled A).
Arguments ThrowsNow {A} e.
Arguments Returns {A} p.

Definition count_fn (tr : list Event) : nat :=
  List.length (filter (fun e => match e with EvFn _ _ _ => true | _ => false end) tr).

Definition count_enter (tr : list Event) : nat :=
  List.length (filter (fun e => match e with EvEnter _ => true | _ => false end) tr).

Definition is_logout_request (e : Event) : bool :=
  match e with EvAuthLogout _ _ _ => true | _ => false end.

Definition is_listener_call (e : Event) : bool :=
  match e with EvListener _ => true | _ => false end.

(** The failure carried by a result, in the form [maybeLogoutAndRetry]
    receives it: a connection failure, or the code of a failure response. *)
Definition failure_of {A} (r : ClientRequestResult A)
    : option (ConnectionFailure + Z) :=
  match r with
  | ClientSuccess _ => None
  | ClientFailure f => Some (inr (error_code f))
  | Connection f => Some (inl f)
  end.

Section Client.

(** [Auth.API_NAME], [Auth.Login] and [Auth.Logout] come from [./Auth]:
    request functions returning a promise.  [Auth_Login p s version] is how
    the request made for login promise [p] with settings [s] at protocol
    version [version] settles. *)
Variable Auth_API_NAME : string.
Variable Auth_Login :
  nat -> SynologyClientSettings -> Z -> Settled (RestApiResponse AuthLoginResponse).
Variable Auth_Logout :
  string -> string -> string -> Settled (RestApiResponse unit).

Definition request_Auth_Login (p : nat) (s : SynologyClientSettings)
    (version : Z) : Promise (RestApiResponse AuthLoginResponse) :=
  {| effects := [EvAuthLogin p s version];
     settled := Auth_Login p s version |}.

(** The callbacks chained on the version-2 request in [maybeLogin]. *)
Definition loginChain (p : LoginPromise)
    : Promise (ClientRequestResult AuthLoginResponse) :=
  catch_
    (then_value
       (then_ (promise_of (Auth_Login (pid p) (captured p) 2))
          (fun response =>
             match response with
             | RestFailure code =>
                 if (code =? NO_SUCH_METHOD_ERROR_CODE)%Z then
                   request_Auth_Login (pid p) (captured p) 3
                 else promise_of (Fulfils response)
             | RestSuccess _ => promise_of (Fulfils response)
             end))
       (fun response => ClientRequestResult_from response Auth_API_NAME))
    (fun e => Connection (ConnectionFailure_from e)).

(** [maybeLogin], up to its [return]: the new client state, the requests
    made synchronously and the handle returned. *)
Definition maybeLogin (c : SynologyClient)
    : SynologyClient * list Event * LoginHandle :=
  match getValidatedSettings c with
  | None => (c, [], Immediate missing_config)
  | Some s =>
      match loginPromise c with
      | None =>
          let p := {| pid := allocated c; captured := s |} in
          ({| loginPromise := Some p;
              settingsVersion := settingsVersion c;
              onSettingsChangeListeners := onSettingsChangeListeners c;
              settings := settings c;
              allocated := S (allocated c) |},
           [EvAuthLogin (pid p) s 2],
           Shared p)
      | Some p => (c, [], Shared p)
      end
  end.

(** [await] on what [maybeLogin] returned. *)
Definition await_login (h : LoginHandle)
    : Settled (ClientRequestResult AuthLoginResponse) :=
  match h with
  | Immediate f => Fulfils (Connection f)
  | Shared p => settled (loginChain p)
  end.

(** All login requests made for a login promise, in order. *)
Definition login_requests (p : LoginPromise) : list Event :=
  EvAuthLogin (pid p) (captured p) 2 :: effects (loginChain p).

(** [maybeLogout] up to its first branch: three assignments, no [await]. *)
Definition maybeLogout_begin (c : SynologyClient)
    : LogoutFrame * SynologyClient :=
  let stashed := loginPromise c in
  let settings_ := getValidatedSettings c in
  ({| stashedLoginPromise := stashed; validated := settings_ |},
   set_loginPromise None c).

(** [updateSettings]: the value returned, the new state, and the frame of
    the [maybeLogout] it started without awaiting it. *)
Definition updateSettings (s : PartialSettings) (c : SynologyClient)
    : bool * SynologyClient * option LogoutFrame :=
  if existsb (fun k => negb (strict_eq (field s k) (field (settings c) k)))
             SETTING_NAME_KEYS
  then
    let c1 := {| loginPromise := loginPromise c;
                 settingsVersion := S (settingsVersion c);
                 onSettingsChangeListeners := onSettingsChangeListeners c;
                 settings := s;
                 allocated := allocated c |} in
    let '(frame, c2) := maybeLogout_begin c1 in
    (true, c2, Some frame)
  else (false, c, None).

Definition act (a : Action) (c : SynologyClient) : SynologyClient :=
  match a with
  | ActUpdateSettings s => snd (fst (updateSettings s c))
  | ActLogin => fst (fst (maybeLogin c))
  | ActLogout => snd (maybeLogout_begin c)
  | ActDiscardLogin => set_loginPromise None c
  | ActSubscribe l => fst (onSettingsChange l c)
  | ActUnsubscribe l =>
      fst (unsubscribe {| sub_listener := l; isSubscribed := true |} c)
  end.

Definition interfere (acts : list Action) (c : SynologyClient)
    : SynologyClient :=
  fold_left (fun c' a => act a c') acts c.

(** The rest of [maybeLogout], run against a script. *)
Definition maybeLogout_resume (script : list (list Action))
    (frame : LogoutFrame) (c1 : SynologyClient) : Run LogoutResult :=
  match stashedLoginPromise frame with
  | None => stop c1 (Resolved not_logged_in)
  | Some stashed =>
      match validated frame with
      | None => stop c1 (Resolved (logout_result (Connection missing_config)))
      | Some s =>
          match script with
          | [] => stop c1 Pending
          | i1 :: rest =>
              let c2 := interfere i1 c1 in
              match settled (loginChain stashed) with
              | Rejects e => stop c2 (Rejected e)
              | Fulfils (Connection f) =>
                  stop c2 (Resolved (logout_result (Connection f)))
              | Fulfils (ClientSuccess data) =>
                  emit [EvAuthLogout (baseUrl s) (sid data) (session s)]
                    match rest with
                    | [] => stop c2 Pending
                    | i2 :: _ =>
                        let c3 := interfere i2 c2 in
                        match Auth_Logout (baseUrl s) (sid data) (session s) with
                        | Fulfils r =>
                            stop c3 (Resolved (logout_result
                              (ClientRequestResult_from r Auth_API_NAME)))
                        | Rejects e =>
                            stop c3 (Resolved (logout_result
                              (Connection (ConnectionFailure_from e))))
                        end
                    end
              | Fulfils (ClientFailure f) =>
                  stop c2 (Resolved (logout_result (ClientFailure f)))
              end
          end
      end
  end.

Definition maybeLogout (script : list (list Action)) (c : SynologyClient)
    : Run LogoutResult :=
  let '(frame, c1) := maybeLogout_begin c in
  maybeLogout_resume script frame c1.

(** Everything a call of [updateSettings] does: its own effects and those of
    the logout it leaves running. *)
Definition updateSettings_trace (script : list (list Action))
    (s : PartialSettings) (c : SynologyClient) : list Event :=
  match updateSettings s c with
  | (_, c', Some frame) => trace (maybeLogout_resume script frame c')
  | (_, _, None) => []
  end.

(** *** The call proxy *)

Variables T U : Type.
(** [fn url sid options n]: what the [n]-th invocation of the wrapped
    endpoint function does with these arguments. *)
Variable fn : option string -> string -> T -> nat -> Called (RestApiResponse U).
Variable group : string.

(** The outermost [try { ... } catch (e) { return ConnectionFailure.from(e) }] *)
Definition try_catch (r : Run (ClientRequestResult U))
    : Run (ClientRequestResult U) :=
  match status r with
  | Rejected e =>
      {| trace := trace r; final := final r;
         status := Resolved (Connection (ConnectionFailure_from e)) |}
  | _ => r
  end.

(** Is the failure one that is worth a fresh login? *)
Definition routine (result : ConnectionFailure + Z) : bool :=
  match result with
  | inl _ => true
  | inr code =>
      (code =? SESSION_TIMEOUT_ERROR_CODE)%Z || (code =? NO_PERMISSIONS_ERROR_CODE)%Z
  end.

(** [maybeLogoutAndRetry]; [retry c'] stands for
    [wrappedFunction(options, false)] started in state [c']. *)
Definition maybeLogoutAndRetry
    (retry : SynologyClient -> Run (ClientRequestResult U))
    (shouldRetryRoutineFailures : bool) (c : SynologyClient)
    (result : ConnectionFailure + Z) : Run (ClientRequestResult U) :=
  if shouldRetryRoutineFailures && routine result then
    retry (set_loginPromise None c)
  else
    match result with
    | inl f => stop c (Resolved (Connection f))
    | inr code =>
        stop c (Resolved (ClientFailure
                            {| error_code := code; apiGroup := group |}))
    end.

(** [wrappedFunction]: one suspension at [await this.maybeLogin()], one at
    [await fn(...)]; [n] counts the invocations of [fn] made so far.  The
    [return await] of a nested call only hands its result on.  The trace
    lists the steps of the call itself; the requests a login promise [p]
    sends later from its callbacks are [effects (loginChain p)], so all login
    requests for [p] are [login_requests p]. *)
Fixpoint wrappedFunction (script : list (list Action)) (c : SynologyClient)
    (n : nat) (options : T) (shouldRetryRoutineFailures : bool) {struct script}
    : Run (ClientRequestResult U) :=
  let versionAtInit := settingsVersion c in
  emit [EvEnter shouldRetryRoutineFailures] (try_catch (
    let '(c1, requests, h) := maybeLogin c in
    emit requests
      match script with
      | [] => stop c1 Pending
      | i1 :: rest1 =>
        let c2 := interfere i1 c1 in
        match await_login h with
        | Rejects e => stop c2 (Rejected e)
        | Fulfils loginResult =>
          if negb (settingsVersion c2 =? versionAtInit) then
            wrappedFunction rest1 c2 n options true
          else
            match loginResult with
            | Connection f =>
                maybeLogoutAndRetry
                  (fun c' => wrappedFunction rest1 c' n options false)
                  shouldRetryRoutineFailures c2 (inl f)
            | ClientFailure f =>
                maybeLogoutAndRetry
                  (fun c' => wrappedFunction rest1 c' n options false)
                  shouldRetryRoutineFailures c2 (inr (error_code f))
            | ClientSuccess data =>
                emit [EvFn (baseUrl_opt (settings c2)) (sid data) (login_of h)]
                  match fn (baseUrl_opt (settings c2)) (sid data) options n with
                  | ThrowsNow e => stop c2 (Rejected e)
                  | Returns p =>
                    match rest1 with
                    | [] => stop c2 Pending
                    | i2 :: rest2 =>
                      let c3 := interfere i2 c2 in
                      match p with
                      | Rejects e => stop c3 (Rejected e)
                      | Fulfils response =>
                        if negb (settingsVersion c3 =? versionAtInit) then
                          wrappedFunction rest2 c3 (S n) options true
                        else
                          match response with
                          | RestSuccess data' =>
                              stop c3 (Resolved (ClientSuccess data'))
                          | RestFailure code =>
                              maybeLogoutAndRetry
                                (fun c' =>
                                   wrappedFunction rest2 c' (S n) options false)
                                shouldRetryRoutineFailures c3 (inr code)
                          end
                      end
                    end
                  end
            end
        end
      end)).

(** [proxy(fn, apiGroup)]: the function handed to callers takes [options]
    only, so a call from outside starts with the allowance at its default. *)
Definition proxy (script : list (list Action)) (c : SynologyClient)
    (options : T) : Run (ClientRequestResult U) :=
  wrappedFunction script c 0 options true.

End Client.

(** A batch of interference during which the settings version does not
    change. *)
Definition VersionStable (acts : list Action) : Prop :=
  forall c, settingsVersion (interfere acts c) = settingsVersion c.

Definition is_update (a : Action) : bool :=
  match a with ActUpdateSettings _ => true | _ => false end.

(** What [maybeLogoutAndRetry] returns when it does not retry. *)
Definition surface {U} (group : string) (result : ConnectionFailure + Z)
    : ClientRequestResult U :=
  match result with
  | inl f => Connection f
  | inr code => ClientFailure {| error_code := code; apiGroup := group |}
  end.

(** The number of suspensions of a script during which some task calls
    [updateSettings]. *)
Definition changes (script : list (list Action)) : nat :=
  List.length (filter (fun acts => existsb is_update acts) script).

(** The [shouldRetryRoutineFailures] arguments of the successive entries of
    [wrappedFunction] in a trace. *)
Definition enters (tr : list Event) : list bool :=
  flat_map (fun e => match e with EvEnter b => [b] | _ => [] end) tr.

(** No entry with the allowance spent directly follows another one. *)
Fixpoint single_retries (l : list bool) : bool :=
  match l with
  | [] => true
  | b :: t =>
      match b, t with
      | false, false :: _ => false
      | _, _ => single_retries t
      end
  end.

(** Every login promise the client holds or will create is numbered [N] or
    more. *)
Definition Fresh (N : nat) (c : SynologyClient) : Prop :=
  N <= allocated c /\
  forall p, loginPromise c = Some p -> N <= pid p.

(** The actions of other tasks that neither change the settings nor clear the
    cached login: calls of the login operation and listener bookkeeping. *)
Definition keeps_session (a : Action) : bool :=
  match a with
  | ActLogin | ActSubscribe _ | ActUnsubscribe _ => true
  | _ => false
  end.

(** ** Concrete environments

    The settings of the specification's scenarios and a few servers. *)
Module Scenario.

Definition S0 : PartialSettings :=
  {| baseUrl_opt := Some "http://h"%string; account_opt := Some "a"%string;
     passwd_opt := Some "p"%string; session_opt := Some "S"%string |}.

Definition V0 : SynologyClientSettings :=
  {| baseUrl := "http://h"; account := "a"; passwd := "p"; session := "S" |}.

(** [S0] with another [baseUrl]. *)
Definition S1 : PartialSettings :=
  {| baseUrl_opt := Some "http://g"%string; account_opt := Some "a"%string;
     passwd_opt := Some "p"%string; session_opt := Some "S"%string |}.

(** [S0] with an empty [passwd]. *)
Definition S_empty_passwd : PartialSettings :=
  {| baseUrl_opt := Some "http://h"%string; account_opt := Some "a"%string;
     passwd_opt := Some ""%string; session_opt := Some "S"%string |}.

Definition P0 : LoginPromise := {| pid := 0; captured := V0 |}.

(** A fresh client on [S0], and the same after one login call. *)
Definition fresh_client : SynologyClient := new_SynologyClient S0.
Definition logged_client : SynologyClient := fst (fst (maybeLogin fresh_client)).

Definition login_ok (p : nat) (s : SynologyClientSettings) (version : Z)
    : Settled (RestApiResponse AuthLoginResponse) :=
  Fulfils (RestSuccess {| sid := "sid" |}).

(** A server that knows only version 3 of the login method. *)
Definition login_v3_only (p : nat) (s : SynologyClientSettings) (version : Z)
    : Settled (RestApiResponse AuthLoginResponse) :=
  if (version =? 2)%Z then Fulfils (RestFailure 103)
  else Fulfils (RestSuccess {| sid := "sid" |}).

(** A server that refuses the login with code 400. *)
Definition login_refused (p : nat) (s : SynologyClientSettings) (version : Z)
    : Settled (RestApiResponse AuthLoginResponse) :=
  Fulfils (RestFailure 400).

Definition logout_ok (url sid_ session_ : string)
    : Settled (RestApiResponse unit) :=
  Fulfils (RestSuccess tt).

(** Endpoints: the first invocation fails with the given code, the later ones
    succeed with their own number. *)
Definition fn_fails_once (code : Z) (url : option string) (sid_ : string)
    (options : unit) (n : nat) : Called (RestApiResponse nat) :=
  match n with
  | 0 => Returns (Fulfils (RestFailure code))
  | _ => Returns (Fulfils (RestSuccess n))
  end.

Definition fn_ok (url : option string) (sid_ : string) (options : unit)
    (n : nat) : Called (RestApiResponse nat) :=
  Returns (Fulfils (RestSuccess n)).

Definition fn_unreachable (url : option string) (sid_ : string)
    (options : unit) (n : nat) : Called (RestApiResponse nat) :=
  Returns (Rejects NetworkError).

End Scenario.

(** ** The unauthenticated proxy, and states the client can be in *)

(** A run of a function made by [proxyWithoutAuth]: the base URLs the wrapped
    function was invoked with, the client state left, and how it settled. *)
Record PlainRun (R : Type) : Type := {
  invoked : list string;
  left : SynologyClient;
  settlement : Status R
}.
Arguments invoked {R} _.
Arguments left {R} _.
Arguments settlement {R} _.

Section PlainProxy.

Variables T U : Type.
(** The wrapped function takes no session id; it is invoked at most once per
    call. *)
Variable fn : string -> T -> Called (RestApiResponse U).
Variable group : string.

(** [proxyWithoutAuth(fn, apiGroup)], called with [options]: one suspension,
    at [await fn(...)], inside the [try]. *)
Definition proxyWithoutAuth (script : list (list Action)) (c : SynologyClient)
    (options : T) : PlainRun (ClientRequestResult U) :=
  match getValidatedSettings c with
  | None =>
      {| invoked := []; left := c;
         settlement := Resolved (Connection missing_config) |}
  | Some settings_ =>
      let attempt :=
        match fn (baseUrl settings_) options with
        | ThrowsNow e => (c, Rejected e)
        | Returns p =>
            match script with
            | [] => (c, Pending)
            | i1 :: _ =>
                match p with
                | Rejects e => (interfere i1 c, Rejected e)
                | Fulfils response => (interfere i1 c, Resolved response)
                end
            end
        end in
      {| invoked := [baseUrl settings_];
         left := fst attempt;
         settlement :=
           match snd attempt with
           | Rejected e => Resolved (Connection (ConnectionFailure_from e))
           | Pending => Pending
           | Resolved (RestSuccess data) => Resolved (ClientSuccess data)
           | Resolved (RestFailure code) =>
               Resolved (ClientFailure {| error_code := code; apiGroup := group |})
           end |}
  end.

End PlainProxy.

(** The states a client goes through: created by the constructor, then
    changed by the synchronous steps of its methods. *)
Inductive Reachable : SynologyClient -> Prop :=
| reach_new (s : PartialSettings) : Reachable (new_SynologyClient s)
| reach_act (a : Action) (c : SynologyClient) :
    Reachable c -> Reachable (act a c).

(** A cached login promise was created earlier, from the settings that are
    valid now. *)
Definition Coherent (c : SynologyClient) : Prop :=
  forall p,
    loginPromise c = Some p ->
    pid p < allocated c /\ getValidatedSettings c = Some (captured p).

(** [Partial] settings with all four fields present. *)
Definition complete (v : SynologyClientSettings) : PartialSettings :=
  {| baseUrl_opt := Some (baseUrl v); account_opt := Some (account v);
     passwd_opt := Some (passwd v); session_opt := Some (session v) |}.

(** Neither a logout request nor a call of a listener. *)
Definition quiet (e : Event) : bool :=
  negb (is_logout_request e || is_listener_call e).

(** ** The popup ([src/popup/popup.tsx])

    The popup renders the stored tasks and turns the user's clicks into calls
    of the client's proxied functions.  What it renders is kept as data: the
    strings and flags the markup is built from. *)

(** ['success' | { failMessage }] of [./popupTypes]. *)
Inductive CallbackResponse : Type :=
| success
| failMessage (reason : string).

Inductive What : Type := pause | resume.

Inductive FilterName : Type :=
| f_downloading | f_uploading | f_completed | f_errored | f_other.

(** [VisibleTaskSettings] *)
Record VisibleTaskSettings : Type := {
  downloading : bool;
  uploading : bool;
  completed : bool;
  errored : bool;
  other : bool
}.

(** What the callbacks of the popup do. *)
Inductive PopupEvent : Type :=
| CallPause (ids : list string)
| CallResume (ids : list string)
| CallDelete (ids : list string) (force_complete : bool)
| CallAddDownloadTask (url : string)
| CallPollTasks
| ConsoleError (message : string)
| TabsCreate (url : string) (active : bool).

(** A promise built by a callback: what was done to settle it, and how it
    settled. *)
Record Job (A : Type) : Type := {
  did : list PopupEvent;
  outcome : Settled A
}.
Arguments did {A} _.
Arguments outcome {A} _.

(** [p.then(f)], [f] returning a promise or, as a settled job, a value. *)
Definition job_then {A B} (p : Job A) (f : A -> Job B) : Job B :=
  match outcome p with
  | Fulfils a => {| did := did p ++ did (f a); outcome := outcome (f a) |}
  | Rejects e => {| did := did p; outcome := Rejects e |}
  end.

Definition job_value {A} (a : A) : Job A := {| did := []; outcome := Fulfils a |}.

(** JavaScript truthiness of a [string | undefined]. *)
Definition truthy (h : option string) : bool :=
  match h with
  | Some x => negb (String.eqb x "")
  | None => false
  end.

(** The four callbacks handed to the [Popup] component. *)
Record Callbacks : Type := {
  openSynologyUi : option (Job unit);
  createTask : option (string -> Job unit);
  pauseResumeTask : option (string -> What -> Job CallbackResponse);
  deleteTask : option (string -> Job CallbackResponse)
}.

(** The header as rendered: icon and text of the description, its tooltip and
    class, the header's shadow, and the [disabled] flags of the two buttons
    that need a callback. *)
Record Header : Type := {
  text : string;
  tooltip : string;
  classes : option string;
  icon : string;
  with_shadow : bool;
  add_disabled : bool;
  open_disabled : bool
}.

(** [State] of the component. *)
Record PopupState : Type := {
  shouldShowDropShadow : bool;
  isAddingDownload : bool
}.

Section PopupView.

(** [DownloadStationTask], [matchesFilter] ([./filtering]), lodash's [sortBy]
    and the two formats of moment are not part of the sources at hand. *)
Variable DownloadStationTask : Type.
Variable title : DownloadStationTask -> string.
Variable matchesFilter : DownloadStationTask -> FilterName -> bool.
Variable sortBy :
  list DownloadStationTask -> (DownloadStationTask -> string) ->
  list DownloadStationTask.
Variable fromNow : Z -> string.
Variable format_ll_LTS : Z -> string.

Record PopupProps : Type := {
  tasks : list DownloadStationTask;
  tasksFetchFailureMessage : option string;
  tasksLastInitiatedFetchTimestamp : option Z;
  tasksLastCompletedFetchTimestamp : option Z;
  taskFilter : VisibleTaskSettings;
  callbacks : Callbacks
}.

(** [renderHeader] *)
Definition renderHeader (props : PopupProps) (state : PopupState) : Header :=
  let '(text0, tooltip0, classes0, icon0) :=
    match tasksLastCompletedFetchTimestamp props with
    | None =>
        ("Loading..."%string, "Loading download tasks..."%string,
         @None string, "fa-refresh fa-spin"%string)
    | Some completed_ =>
        match tasksFetchFailureMessage props with
        | Some message =>
            ("Error loading tasks"%string, message,
             Some "error-message"%string, "fa-exclamation-triangle"%string)
        | None =>
            (String.append "Updated " (fromNow completed_),
             format_ll_LTS completed_,
             Some "success-message"%string, "fa-check"%string)
        end
    end in
  let updating :=
    match tasksLastInitiatedFetchTimestamp props,
          tasksLastCompletedFetchTimestamp props with
    | Some initiated, Some completed_ => (completed_ <? initiated)%Z
    | _, _ => false
    end in
  {| text := text0;
     tooltip := if updating then String.append tooltip0 " (updating now)"
                else tooltip0;
     classes := classes0;
     icon := if updating then "fa-refresh fa-spin"%string else icon0;
     with_shadow := shouldShowDropShadow state;
     add_disabled :=
       match createTask (callbacks props) with None => true | Some _ => false end;
     open_disabled :=
       match openSynologyUi (callbacks props) with
       | None => true
       | Some _ => false
       end |}.

(** The filter of [renderBody]. *)
Definition shown (filter_ : VisibleTaskSettings) (t : DownloadStationTask)
    : bool :=
  (downloading filter_ && matchesFilter t f_downloading)
  || (uploading filter_ && matchesFilter t f_uploading)
  || (completed filter_ && matchesFilter t f_completed)
  || (errored filter_ && matchesFilter t f_errored)
  || (other filter_ && matchesFilter t f_other).

(** One [<Task>] element: the task and the two callbacks it is given. *)
Record TaskElement : Type := {
  task : DownloadStationTask;
  onDelete : option (string -> Job CallbackResponse);
  onPauseResume : option (string -> What -> Job CallbackResponse)
}.

(** What [renderBody] returns: a [no-tasks] message or the list. *)
Inductive Body : Type :=
| NoTasks (message : string)
| DownloadTasks (items : list TaskElement).

(** [renderBody] *)
Definition renderBody (props : PopupProps) : Body :=
  match tasksLastCompletedFetchTimestamp props with
  | None => NoTasks "..."
  | Some _ =>
      if List.length (tasks props) =? 0 then NoTasks "No download tasks."
      else
        let filteredTasks := filter (shown (taskFilter props)) (tasks props) in
        if List.length filteredTasks =? 0 then
          NoTasks "Download tasks exist, but none match your filters."
        else
          DownloadTasks
            (map (fun t =>
                    {| task := t;
                       onDelete := deleteTask (callbacks props);
                       onPauseResume := pauseResumeTask (callbacks props) |})
                 (sortBy (tasks props) title))
  end.

End PopupView.

Section PopupCallbacks.

(** The two proxied functions behind the buttons, [pollTasks] and
    [addDownloadTask] of [../apiActions], [errorMessageFromCode] and the
    name of the task API ([../api]): for each call, how the promise it
    returns settles. *)
Variable Task_Pause : list string -> Settled (RestApiResponse unit).
Variable Task_Resume : list string -> Settled (RestApiResponse unit).
Variable Task_Delete : list string -> bool -> Settled (RestApiResponse unit).
Variable pollTasks : Settled unit.
Variable addDownloadTask : string -> Settled unit.
Variable errorMessageFromCode : Z -> string -> string.
Variable Task_API_NAME : string.

(** [convertResponse] *)
Definition convertResponse (response : RestApiResponse unit)
    : Job CallbackResponse :=
  match response with
  | RestSuccess _ => job_value success
  | RestFailure code =>
      let reason := errorMessageFromCode code Task_API_NAME in
      {| did := [ConsoleError (String.append "API call failed, reason: " reason)];
         outcome := Fulfils (failMessage reason) |}
  end.

(** [reloadOnSuccess] *)
Definition reloadOnSuccess (response : CallbackResponse)
    : Job CallbackResponse :=
  match response with
  | success =>
      job_then {| did := [CallPollTasks]; outcome := pollTasks |}
               (fun _ => job_value response)
  | failMessage _ => job_value response
  end.

(** The callbacks built in [onStoredStateChange] from [hostUrl]. *)
Definition make_callbacks (hostUrl : option string) : Callbacks :=
  {| openSynologyUi :=
       match hostUrl with
       | Some url =>
           if truthy hostUrl then
             Some {| did := [TabsCreate url true]; outcome := Fulfils tt |}
           else None
       | None => None
       end;
     createTask :=
       if truthy hostUrl then
         Some (fun url =>
                 job_then {| did := [CallAddDownloadTask url];
                             outcome := addDownloadTask url |}
                          (fun _ => {| did := [CallPollTasks];
                                       outcome := Fulfils tt |}))
       else None;
     pauseResumeTask :=
       if truthy hostUrl then
         Some (fun taskId what =>
                 job_then
                   (job_then
                      match what with
                      | pause => {| did := [CallPause [taskId]];
                                    outcome := Task_Pause [taskId] |}
                      | resume => {| did := [CallResume [taskId]];
                                     outcome := Task_Resume [taskId] |}
                      end
                      convertResponse)
                   reloadOnSuccess)
       else None;
     deleteTask :=
       if truthy hostUrl then
         Some (fun taskId =>
                 job_then
                   (job_then {| did := [CallDelete [taskId] false];
                                outcome := Task_Delete [taskId] false |}
                             convertResponse)
                   reloadOnSuccess)
       else None |}.

End PopupCallbacks.

(** ** Concrete environments for the unauthenticated proxy and the popup *)
Module Samples.

(** A capability query that is answered with code 106. *)
Definition query_refused (url : string) (options : unit)
    : Called (RestApiResponse nat) :=
  Returns (Fulfils (RestFailure 106)).

(** Tasks that are just their titles; only the task "b" is downloading. *)
Definition matches (t : string) (f : FilterName) : bool :=
  match f with
  | f_downloading => String.eqb t "b"
  | _ => false
  end.

Fixpoint insert_by (key : string -> string) (t : string) (l : list string)
    : list string :=
  match l with
  | [] => [t]
  | x :: l' =>
      if String.leb (key t) (key x) then t :: l else x :: insert_by key t l'
  end.

(** A stable sort by key, standing for lodash's [sortBy]. *)
Definition sort_by (l : list string) (key : string -> string) : list string :=
  fold_right (insert_by key) [] l.

Definition only_downloading : VisibleTaskSettings :=
  {| downloading := true; uploading := false; completed := false;
     errored := false; other := false |}.

Definition pause_ok (ids : list string) : Settled (RestApiResponse unit) :=
  Fulfils (RestSuccess tt).
Definition resume_fails (ids : list string) : Settled (RestApiResponse unit) :=
  Fulfils (RestFailure 405).
Definition delete_ok (ids : list string) (force_complete : bool)
    : Settled (RestApiResponse unit) :=
  Fulfils (RestSuccess tt).
Definition add_ok (url : string) : Settled unit := Fulfils tt.
Definition message_of (code : Z) (api : string) : string :=
  if (code =? 405)%Z then "Invalid task action" else "Unknown error".

(** The callbacks for the host "http://h", the reload failing. *)
Definition wired : Callbacks :=
  make_callbacks pause_ok resume_fails delete_ok (Rejects NetworkError) add_ok
                 message_of "SYNO.DownloadStation.Task" (Some "http://h"%string).

(** Two tasks fetched at time 10, a fetch started at time 20. *)
Definition props : PopupProps string :=
  {| tasks := ["b"%string; "a"%string];
     tasksFetchFailureMessage := None;
     tasksLastInitiatedFetchTimestamp := Some 20%Z;
     tasksLastCompletedFetchTimestamp := Some 10%Z;
     taskFilter := only_downloading;
     callbacks := wired |}.

End Samples.



(** * Properties *)

(** ** Interference and the settings version *)

Lemma maybeLogin_version c :
  settingsVersion (fst (fst (maybeLogin c))) = settingsVersion c.
Proof.
  unfold maybeLogin.
  destruct (getValidatedSettings c); [destruct (loginPromise c)|]; reflexivity.
Qed.

Lemma unsubscribe_version sub c :
  settingsVersion (fst (unsubscribe sub c)) = settingsVersion c.
Proof. unfold unsubscribe. destruct (isSubscribed sub); reflexivity. Qed.

Lemma act_version a c :
  is_update a = false -> settingsVersion (act a c) = settingsVersion c.
Proof.
  destruct a; simpl; intros H; try discriminate; try reflexivity.
  - apply maybeLogin_version.
Qed.

Lemma no_update_stable acts :
  forallb (fun a => negb (is_update a)) acts = true -> VersionStable acts.
Proof.
  unfold VersionStable, interfere.
  induction acts as [|a acts IH]; simpl; intros H c; [reflexivity|].
  apply andb_prop in H. destruct H as [Ha Hs].
  rewrite IH by exact Hs. apply act_version.
  now destruct (is_update a).
Qed.

Lemma nil_stable : VersionStable [].
Proof. intro c. reflexivity. Qed.

(** ** Strong induction on scripts *)

Lemma script_ind (A : Type) (P : list A -> Prop) :
  (forall l, (forall l', List.length l' < List.length l -> P l') -> P l) ->
  forall l, P l.
Proof.
  intros step l.
  remember (List.length l) as k eqn:Hk.
  revert l Hk.
  induction k as [k IH] using lt_wf_ind.
  intros l ->. apply step. intros l' Hlt. exact (IH _ Hlt l' eq_refl).
Qed.

Lemma count_fn_app tr1 tr2 : count_fn (tr1 ++ tr2) = count_fn tr1 + count_fn tr2.
Proof. unfold count_fn. now rewrite filter_app, length_app. Qed.

Lemma count_enter_app tr1 tr2 :
  count_enter (tr1 ++ tr2) = count_enter tr1 + count_enter tr2.
Proof. unfold count_enter. now rewrite filter_app, length_app. Qed.

Lemma maybeLogin_requests c :
  count_fn (snd (fst (maybeLogin c))) = 0 /\ count_enter (snd (fst (maybeLogin c))) = 0.
Proof.
  unfold maybeLogin.
  destruct (getValidatedSettings c); [destruct (loginPromise c)|]; split; reflexivity.
Qed.

Section Proofs.

Variable Auth_API_NAME : string.
Variable Auth_Login :
  nat -> SynologyClientSettings -> Z -> Settled (RestApiResponse AuthLoginResponse).
Variables T U : Type.
Variable fn : option string -> string -> T -> nat -> Called (RestApiResponse U).
Variable group : string.

Local Abbreviation wrapped := (wrappedFunction Auth_API_NAME Auth_Login T U fn group).
Local Abbreviation awaitLogin := (await_login Auth_API_NAME Auth_Login).
Local Abbreviation chain := (loginChain Auth_API_NAME Auth_Login).
Local Abbreviation retryOr := (maybeLogoutAndRetry U group).

Lemma try_catch_status (r : Run (ClientRequestResult U)) e :
  status (try_catch U r) <> Rejected e.
Proof. unfold try_catch. destruct (status r) eqn:E; simpl; congruence. Qed.

Lemma try_catch_id (r : Run (ClientRequestResult U)) :
  (forall e, status r <> Rejected e) -> try_catch U r = r.
Proof.
  unfold try_catch. intros H. destruct (status r) eqn:E; try reflexivity.
  now elim (H e).
Qed.

Lemma try_catch_emit evs (r : Run (ClientRequestResult U)) :
  try_catch U (emit evs r) = emit evs (try_catch U r).
Proof. destruct r as [tr c st]. destruct st; reflexivity. Qed.

Lemma wrapped_status script c n options b e :
  status (wrapped script c n options b) <> Rejected e.
Proof. destruct script; simpl; apply try_catch_status. Qed.

Lemma try_catch_wrapped script c n options b :
  try_catch U (wrapped script c n options b) = wrapped script c n options b.
Proof. apply try_catch_id. intro e. apply wrapped_status. Qed.

Lemma try_catch_retry script n options b c' result :
  try_catch U (retryOr (fun x => wrapped script x n options false) b c' result)
  = retryOr (fun x => wrapped script x n options false) b c' result.
Proof.
  unfold maybeLogoutAndRetry.
  destruct (b && routine result).
  - apply try_catch_wrapped.
  - destruct result; reflexivity.
Qed.

Variable options : T.

Local Abbreviation c1of c := (fst (fst (maybeLogin c))).
Local Abbreviation reqs c := (snd (fst (maybeLogin c))).
Local Abbreviation hof c := (snd (maybeLogin c)).
Local Abbreviation clear c := (set_loginPromise None c).

Lemma retry_or_retry retry c result :
  routine result = true ->
  retryOr retry true c result = retry (clear c).
Proof. unfold maybeLogoutAndRetry. now intros ->. Qed.

Lemma retry_or_surface retry b c result :
  b && routine result = false ->
  retryOr retry b c result = stop c (Resolved (surface group result)).
Proof. unfold maybeLogoutAndRetry. intros ->. now destruct result. Qed.

Lemma emit_emit {R} evs1 evs2 (r : Run R) :
  emit evs1 (emit evs2 r) = emit (evs1 ++ evs2) r.
Proof. unfold emit. simpl. now rewrite app_assoc. Qed.

(** *** The equations of [wrappedFunction], one per path through its body *)

Lemma wrapped_nil c n b :
  wrapped [] c n options b = emit (EvEnter b :: reqs c) (stop (c1of c) Pending).
Proof.
  simpl. destruct (maybeLogin c) as [[c1 rq] h]. reflexivity.
Qed.

Lemma wrapped_cons i1 rest1 c n b :
  wrapped (i1 :: rest1) c n options b =
  emit (EvEnter b :: reqs c)
    (let c2 := interfere i1 (c1of c) in
     match awaitLogin (hof c) with
     | Rejects e => stop c2 (Resolved (Connection (ConnectionFailure_from e)))
     | Fulfils loginResult =>
         if negb (settingsVersion c2 =? settingsVersion c) then
           wrapped rest1 c2 n options true
         else
           match loginResult with
           | ClientSuccess data =>
               emit [EvFn (baseUrl_opt (settings c2)) (sid data) (login_of (hof c))]
                 match fn (baseUrl_opt (settings c2)) (sid data) options n with
                 | ThrowsNow e =>
                     stop c2 (Resolved (Connection (ConnectionFailure_from e)))
                 | Returns p =>
                     match rest1 with
                     | [] => stop c2 Pending
                     | i2 :: rest2 =>
                         let c3 := interfere i2 c2 in
                         match p with
                         | Rejects e =>
                             stop c3 (Resolved (Connection (ConnectionFailure_from e)))
                         | Fulfils response =>
                             if negb (settingsVersion c3 =? settingsVersion c) then
                               wrapped rest2 c3 (S n) options true
                             else
                               match response with
                               | RestSuccess data' =>
                                   stop c3 (Resolved (ClientSuccess data'))
                               | RestFailure code =>
                                   retryOr
                                     (fun c' => wrapped rest2 c' (S n) options false)
                                     b c3 (inr code)
                               end
                         end
                     end
                 end
           | _ =>
               match failure_of loginResult with
               | Some result =>
                   retryOr (fun c' => wrapped rest1 c' n options false) b c2 result
               | None => stop c2 Pending
               end
           end
     end).
Proof.
  cbn [wrappedFunction].
  destruct (maybeLogin c) as [[c1 rq] h]. cbn [fst snd].
  rewrite !try_catch_emit, emit_emit. cbn [app]. f_equal.
  destruct (awaitLogin h) as [loginResult|e]; [|reflexivity].
  destruct (negb (settingsVersion (interfere i1 c1) =? settingsVersion c)).
  { apply try_catch_wrapped. }
  destruct loginResult as [data|f|f]; cbn [failure_of].
  - rewrite try_catch_emit. f_equal.
    destruct (fn _ _ _ _) as [e|p]; [reflexivity|].
    destruct rest1 as [|i2 rest2]; [reflexivity|].
    destruct p as [response|e]; [|reflexivity].
    destruct (negb (settingsVersion (interfere i2 (interfere i1 c1)) =? settingsVersion c)).
    { apply try_catch_wrapped. }
    destruct response; [reflexivity|].
    apply try_catch_retry.
  - apply try_catch_retry.
  - apply try_catch_retry.
Qed.

(** *** Checkpoints at which the version has not moved *)

Lemma checkpoint1 i1 c :
  VersionStable i1 ->
  negb (settingsVersion (interfere i1 (c1of c)) =? settingsVersion c) = false.
Proof.
  intros H. rewrite H, maybeLogin_version, Nat.eqb_refl. reflexivity.
Qed.

Lemma checkpoint2 i1 i2 c :
  VersionStable i1 -> VersionStable i2 ->
  negb (settingsVersion (interfere i2 (interfere i1 (c1of c))) =? settingsVersion c)
  = false.
Proof.
  intros H1 H2. rewrite H2, H1, maybeLogin_version, Nat.eqb_refl. reflexivity.
Qed.

Lemma moved_checkpoint v w : v <> w -> negb (v =? w) = true.
Proof. intros H. apply negb_true_iff. now apply Nat.eqb_neq. Qed.

Lemma await_login_fulfils h : exists r, awaitLogin h = Fulfils r.
Proof.
  destruct h as [f|p]; simpl; [eauto|].
  unfold loginChain, catch_, then_value, then_. simpl.
  destruct (Auth_Login (pid p) (captured p) 2) as [[d|code]|e]; simpl; eauto.
  destruct (code =? NO_SUCH_METHOD_ERROR_CODE)%Z; simpl; eauto.
  destruct (Auth_Login (pid p) (captured p) 3) as [r|e]; simpl; eauto.
Qed.

(** *** An attempt that surfaces its failure *)

Lemma surfaced_login_failure i1 rest1 c n b loginResult result :
  VersionStable i1 ->
  awaitLogin (hof c) = Fulfils loginResult ->
  failure_of loginResult = Some result ->
  b && routine result = false ->
  wrapped (i1 :: rest1) c n options b =
  emit (EvEnter b :: reqs c)
       (stop (interfere i1 (c1of c)) (Resolved (surface group result))).
Proof.
  intros H1 HL HF HB. rewrite wrapped_cons. cbv zeta.
  rewrite HL, checkpoint1 by assumption.
  destruct loginResult; try discriminate; rewrite HF;
    now rewrite retry_or_surface.
Qed.

Lemma surfaced_endpoint_failure i1 i2 rest2 c n b data code :
  VersionStable i1 -> VersionStable i2 ->
  awaitLogin (hof c) = Fulfils (ClientSuccess data) ->
  fn (baseUrl_opt (settings (interfere i1 (c1of c)))) (sid data) options n
  = Returns (Fulfils (RestFailure code)) ->
  b && routine (inr code) = false ->
  wrapped (i1 :: i2 :: rest2) c n options b =
  emit (EvEnter b :: reqs c ++
          [EvFn (baseUrl_opt (settings (interfere i1 (c1of c)))) (sid data)
                (login_of (hof c))])
       (stop (interfere i2 (interfere i1 (c1of c)))
             (Resolved (surface group (inr code)))).
Proof.
  intros H1 H2 HL HF HB. rewrite wrapped_cons. cbv zeta.
  rewrite HL, checkpoint1 by assumption. rewrite HF.
  rewrite checkpoint2 by assumption.
  rewrite retry_or_surface by assumption.
  rewrite emit_emit. reflexivity.
Qed.

(** *** An attempt that retries *)

Lemma retried_login_failure i1 rest1 c n loginResult result :
  VersionStable i1 ->
  awaitLogin (hof c) = Fulfils loginResult ->
  failure_of loginResult = Some result ->
  routine result = true ->
  wrapped (i1 :: rest1) c n options true =
  emit (EvEnter true :: reqs c)
       (wrapped rest1 (clear (interfere i1 (c1of c))) n options false).
Proof.
  intros H1 HL HF HB. rewrite wrapped_cons. cbv zeta.
  rewrite HL, checkpoint1 by assumption.
  destruct loginResult; try discriminate; rewrite HF;
    now rewrite retry_or_retry.
Qed.

Lemma retried_endpoint_failure i1 i2 rest2 c n data code :
  VersionStable i1 -> VersionStable i2 ->
  awaitLogin (hof c) = Fulfils (ClientSuccess data) ->
  fn (baseUrl_opt (settings (interfere i1 (c1of c)))) (sid data) options n
  = Returns (Fulfils (RestFailure code)) ->
  routine (inr code) = true ->
  wrapped (i1 :: i2 :: rest2) c n options true =
  emit (EvEnter true :: reqs c ++
          [EvFn (baseUrl_opt (settings (interfere i1 (c1of c)))) (sid data)
                (login_of (hof c))])
       (wrapped rest2 (clear (interfere i2 (interfere i1 (c1of c)))) (S n)
                options false).
Proof.
  intros H1 H2 HL HF HB. rewrite wrapped_cons. cbv zeta.
  rewrite HL, checkpoint1 by assumption. rewrite HF.
  rewrite checkpoint2 by assumption.
  rewrite retry_or_retry by assumption.
  rewrite emit_emit. reflexivity.
Qed.

(** *** The attempt made with the allowance spent *)

Ltac counted :=
  cbv [count_fn count_enter]; simpl; repeat split; eauto; try lia; try discriminate.

Lemma count_enter_reqs c : count_enter (reqs c) = 0.
Proof. apply maybeLogin_requests. Qed.

Lemma count_fn_reqs c : count_fn (reqs c) = 0.
Proof. apply maybeLogin_requests. Qed.

Lemma status_emit {R} evs (r : Run R) : status (emit evs r) = status r.
Proof. reflexivity. Qed.

Lemma enter_attempt b c (r : Run (ClientRequestResult U)) :
  count_enter (trace (emit (EvEnter b :: reqs c) r)) = S (count_enter (trace r)).
Proof.
  unfold emit. cbn [trace].
  change (EvEnter b :: reqs c) with ([EvEnter b] ++ reqs c).
  rewrite !count_enter_app, count_enter_reqs. reflexivity.
Qed.

Lemma fn_attempt b c (r : Run (ClientRequestResult U)) :
  count_fn (trace (emit (EvEnter b :: reqs c) r)) = count_fn (trace r).
Proof.
  unfold emit. cbn [trace].
  change (EvEnter b :: reqs c) with ([EvEnter b] ++ reqs c).
  rewrite !count_fn_app, count_fn_reqs. reflexivity.
Qed.

Lemma spent_attempt script c n :
  Forall VersionStable script ->
  count_enter (trace (wrapped script c n options false)) = 1
  /\ count_fn (trace (wrapped script c n options false)) <= 1
  /\ (2 <= List.length script ->
      exists r, status (wrapped script c n options false) = Resolved r).
Proof.
  intros HS.
  destruct script as [|i1 rest1].
  { rewrite wrapped_nil, enter_attempt, fn_attempt. counted. }
  inversion HS as [|? ? H1 HS1]; subst.
  rewrite wrapped_cons, enter_attempt, fn_attempt, status_emit. cbv zeta.
  destruct (await_login_fulfils (hof c)) as [lr HL]. rewrite HL.
  rewrite checkpoint1 by assumption.
  destruct lr as [data|f|f]; cbn [failure_of].
  - destruct (fn _ _ _ _) as [e|p]; [counted|].
    destruct rest1 as [|i2 rest2]; [counted|].
    inversion HS1 as [|? ? H2 HS2]; subst.
    destruct p as [response|e]; [|counted].
    rewrite checkpoint2 by assumption.
    destruct response as [d|code]; [counted|].
    rewrite retry_or_surface by reflexivity.
    counted.
  - rewrite retry_or_surface by reflexivity. counted.
  - rewrite retry_or_surface by reflexivity. counted.
Qed.

Lemma routine_spelled result :
  match result with
  | inl _ => True
  | inr code => code = SESSION_TIMEOUT_ERROR_CODE \/ code = NO_PERMISSIONS_ERROR_CODE
  end ->
  routine result = true.
Proof.
  destruct result as [f|code]; simpl; [reflexivity|].
  intros [-> | ->]; reflexivity.
Qed.

Lemma not_routine code :
  code <> SESSION_TIMEOUT_ERROR_CODE -> code <> NO_PERMISSIONS_ERROR_CODE ->
  routine (inr code) = false.
Proof.
  intros H1 H2. simpl. apply orb_false_iff. split; now apply Z.eqb_neq.
Qed.

(** The retry on a routine failure.  A proxied call during which the
    settings version does not change
    ([Forall VersionStable]) and whose first attempt meets a routine failure
    -- the login result is a connection failure or a failure response with
    code 106 or 105, or the endpoint response is a failure response with code
    106 or 105 (a value of type [RestApiResponse] is never a connection
    failure) -- discards the cached login promise and runs the call again
    exactly once with retrying disabled: the run is the first attempt's
    events followed by the run of [wrappedFunction(options, false)] from the
    state with [loginPromise] cleared.  That second run enters
    [wrappedFunction] once, invokes [fn] at most once, never rejects, and once
    two more suspensions have elapsed it has resolved with the value the
    caller gets: nothing is invoked after it. *)
Theorem routine_failure_retried_exactly_once
    (c c' : SynologyClient) (n n' : nat) (i1 : list Action)
    (rest1 rest : list (list Action)) (result : ConnectionFailure + Z)
    (evs : list Event) :
  Forall VersionStable (i1 :: rest1) ->
  ((exists loginResult,
      awaitLogin (hof c) = Fulfils loginResult /\
      failure_of loginResult = Some result /\
      c' = interfere i1 (c1of c) /\ rest = rest1 /\ n' = n /\ evs = reqs c)
   \/
   (exists data i2 code,
      awaitLogin (hof c) = Fulfils (ClientSuccess data) /\
      fn (baseUrl_opt (settings (interfere i1 (c1of c)))) (sid data) options n
        = Returns (Fulfils (RestFailure code)) /\
      result = inr code /\
      rest1 = i2 :: rest /\ c' = interfere i2 (interfere i1 (c1of c)) /\
      n' = S n /\
      evs = reqs c ++
            [EvFn (baseUrl_opt (settings (interfere i1 (c1of c)))) (sid data)
                  (login_of (hof c))])) ->
  match result with
  | inl _ => True
  | inr code => code = 106%Z \/ code = 105%Z
  end ->
  let first := wrapped (i1 :: rest1) c n options true in
  let second := wrapped rest (set_loginPromise None c') n' options false in
  first = emit (EvEnter true :: evs) second
  /\ loginPromise (set_loginPromise None c') = None
  /\ count_enter (trace first) = 2
  /\ count_enter (trace second) = 1
  /\ count_fn (trace second) <= 1
  /\ (forall e, status first <> Rejected e)
  /\ (2 <= List.length rest ->
      exists r, status second = Resolved r /\ status first = Resolved r).
Proof.
  intros HS Hmet Hroutine first second.
  apply routine_spelled in Hroutine.
  inversion HS as [|? ? H1 HS1]; subst.
  assert (Heq : first = emit (EvEnter true :: evs) second).
  { destruct Hmet as [(lr & HL & HF & -> & -> & -> & ->)
                     |(data & i2 & code & HL & HF & -> & -> & -> & -> & ->)].
    - subst first second. eapply retried_login_failure; eassumption.
    - inversion HS1 as [|? ? H2 HS2]; subst.
      subst first second. eapply retried_endpoint_failure; eassumption. }
  assert (HS' : Forall VersionStable rest).
  { destruct Hmet as [(lr & _ & _ & _ & -> & _)
                     |(data & i2 & code & _ & _ & _ & -> & _)]; [assumption|].
    now inversion HS1. }
  destruct (spent_attempt rest (set_loginPromise None c') n' HS')
    as (Henter & Hfn & Hres).
  fold second in Henter, Hfn, Hres.
  assert (Hevs : count_enter evs = 0).
  { destruct Hmet as [(lr & _ & _ & _ & _ & _ & ->)
                     |(data & i2 & code & _ & _ & _ & _ & _ & _ & ->)].
    - apply count_enter_reqs.
    - rewrite count_enter_app, count_enter_reqs. reflexivity. }
  repeat split; try assumption.
  - rewrite Heq. unfold emit. cbn [trace].
    change (EvEnter true :: evs) with ([EvEnter true] ++ evs).
    rewrite !count_enter_app, Hevs, Henter. reflexivity.
  - intro e. apply wrapped_status.
  - intros Hlen. destruct (Hres Hlen) as [r Hr]. exists r. split; [assumption|].
    rewrite Heq, status_emit. assumption.
Qed.

(** C7, amended.  While the settings version is unchanged at the checkpoints,
    a failure response of the endpoint whose code is neither 106 nor 105, and
    any failure response met with the retry allowance spent, is returned at
    once with [apiGroup] set to the proxy's group: [fn] is invoked once (not at
    all when the failure is the login's) and [wrappedFunction] is entered
    once.  A connection failure met with the allowance spent is returned as it
    is (it has no [apiGroup]). *)
Theorem failure_surfaced_without_retry
    (c : SynologyClient) (n : nat) (b : bool) (i1 : list Action) :
  VersionStable i1 ->
  (forall data i2 rest2 code,
      VersionStable i2 ->
      awaitLogin (hof c) = Fulfils (ClientSuccess data) ->
      fn (baseUrl_opt (settings (interfere i1 (c1of c)))) (sid data) options n
        = Returns (Fulfils (RestFailure code)) ->
      b = false \/ (code <> 106%Z /\ code <> 105%Z) ->
      let r := wrapped (i1 :: i2 :: rest2) c n options b in
      status r = Resolved (ClientFailure {| error_code := code; apiGroup := group |})
      /\ count_fn (trace r) = 1 /\ count_enter (trace r) = 1)
  /\
  (forall loginResult result rest1,
      awaitLogin (hof c) = Fulfils loginResult ->
      failure_of loginResult = Some result ->
      b = false \/
      (exists code, result = inr code /\ code <> 106%Z /\ code <> 105%Z) ->
      let r := wrapped (i1 :: rest1) c n options b in
      status r =
        Resolved match result with
                 | inl f => Connection f
                 | inr code => ClientFailure {| error_code := code; apiGroup := group |}
                 end
      /\ count_fn (trace r) = 0 /\ count_enter (trace r) = 1).
Proof.
  intros H1. split.
  - intros data i2 rest2 code H2 HL HF Hwhy r. subst r.
    assert (HB : b && routine (inr code) = false).
    { destruct Hwhy as [-> | [Ha Hb]]; [reflexivity|].
      rewrite not_routine by assumption. apply andb_false_r. }
    rewrite (surfaced_endpoint_failure i1 i2 rest2 c n b data code) by assumption.
    rewrite status_emit. unfold emit. cbn [trace status stop].
    change (EvEnter b :: ?x) with ([EvEnter b] ++ x).
    rewrite !count_fn_app, !count_enter_app, count_fn_reqs, count_enter_reqs.
    repeat split.
  - intros lr result rest1 HL HF Hwhy r. subst r.
    assert (HB : b && routine result = false).
    { destruct Hwhy as [-> | (code & -> & Ha & Hb)]; [reflexivity|].
      rewrite not_routine by assumption. apply andb_false_r. }
    rewrite (surfaced_login_failure i1 rest1 c n b lr result) by assumption.
    rewrite status_emit, enter_attempt, fn_attempt.
    destruct result; repeat split.
Qed.

(** *** Termination: a call resolves once the settings stop changing *)

Lemma moved_has_update acts c :
  settingsVersion (interfere acts c) <> settingsVersion c ->
  existsb is_update acts = true.
Proof.
  intros H. destruct (existsb is_update acts) eqn:E; [reflexivity|].
  exfalso. apply H. apply no_update_stable.
  apply forallb_forall. intros a Ha.
  destruct (is_update a) eqn:Ea; [|reflexivity].
  assert (existsb is_update acts = true) by (apply existsb_exists; eauto).
  congruence.
Qed.

Lemma changes_cons acts script :
  changes (acts :: script) =
  (if existsb is_update acts then 1 else 0) + changes script.
Proof. unfold changes. simpl. now destruct (existsb is_update acts). Qed.



Lemma retry_or_cases retry b c result :
  (b = true /\ routine result = true /\ retryOr retry b c result = retry (clear c))
  \/ retryOr retry b c result = stop c (Resolved (surface group result)).
Proof.
  destruct (b && routine result) eqn:E.
  - apply andb_prop in E. destruct E as [-> E]. left.
    repeat split; [assumption|]. now apply retry_or_retry.
  - right. now apply retry_or_surface.
Qed.


(** *** Thrown errors *)





(** *** Restarts *)

Lemma restart_after_login i1 rest1 c n b :
  settingsVersion (interfere i1 (c1of c)) <> settingsVersion c ->
  wrapped (i1 :: rest1) c n options b =
  emit (EvEnter b :: reqs c)
       (wrapped rest1 (interfere i1 (c1of c)) n options true).
Proof.
  intros HV. rewrite wrapped_cons. cbv zeta.
  destruct (await_login_fulfils (hof c)) as [lr ->].
  now rewrite moved_checkpoint.
Qed.

Lemma restart_after_endpoint i1 i2 rest2 c n b data response :
  awaitLogin (hof c) = Fulfils (ClientSuccess data) ->
  settingsVersion (interfere i1 (c1of c)) = settingsVersion c ->
  fn (baseUrl_opt (settings (interfere i1 (c1of c)))) (sid data) options n
    = Returns (Fulfils response) ->
  settingsVersion (interfere i2 (interfere i1 (c1of c))) <> settingsVersion c ->
  wrapped (i1 :: i2 :: rest2) c n options b =
  emit (EvEnter b :: reqs c ++
          [EvFn (baseUrl_opt (settings (interfere i1 (c1of c)))) (sid data)
                (login_of (hof c))])
       (wrapped rest2 (interfere i2 (interfere i1 (c1of c))) (S n) options true).
Proof.
  intros HL HV HF HV2. rewrite wrapped_cons. cbv zeta.
  rewrite HL, HV, Nat.eqb_refl. cbn [negb]. rewrite HF.
  rewrite moved_checkpoint by assumption.
  now rewrite emit_emit.
Qed.

(** *** One retry per settings version *)

Lemma enters_app tr1 tr2 : enters (tr1 ++ tr2) = enters tr1 ++ enters tr2.
Proof. unfold enters. apply flat_map_app. Qed.

Lemma enters_reqs c : enters (reqs c) = [].
Proof.
  unfold maybeLogin.
  destruct (getValidatedSettings c); [destruct (loginPromise c)|]; reflexivity.
Qed.

Lemma enters_attempt b c (r : Run (ClientRequestResult U)) :
  enters (trace (emit (EvEnter b :: reqs c) r)) = b :: enters (trace r).
Proof.
  unfold emit. cbn [trace].
  change (EvEnter b :: reqs c) with ([EvEnter b] ++ reqs c).
  rewrite !enters_app, enters_reqs. reflexivity.
Qed.

Lemma single_retries_cons b b' l :
  single_retries (b' :: l) = true -> b = true \/ b' = true ->
  single_retries (b :: b' :: l) = true.
Proof.
  intros H [-> | ->]; [exact H|]. destruct b; exact H.
Qed.

(** *** The paths through one attempt *)

Lemma wrapped_paths (Q : Run (ClientRequestResult U) -> Prop) i1 rest1 c n b :
  let c2 := interfere i1 (c1of c) in
  let fnEv := fun data =>
    EvFn (baseUrl_opt (settings c2)) (sid data) (login_of (hof c)) in
  (settingsVersion c2 <> settingsVersion c ->
   Q (emit (EvEnter b :: reqs c) (wrapped rest1 c2 n options true))) ->
  (forall lr result,
      awaitLogin (hof c) = Fulfils lr ->
      settingsVersion c2 = settingsVersion c ->
      failure_of lr = Some result ->
      Q (emit (EvEnter b :: reqs c)
              (retryOr (fun c' => wrapped rest1 c' n options false) b c2 result))) ->
  (forall data c' st,
      awaitLogin (hof c) = Fulfils (ClientSuccess data) ->
      settingsVersion c2 = settingsVersion c ->
      (forall e, st <> Rejected e) ->
      (st = Pending -> rest1 = []) ->
      Q (emit (EvEnter b :: reqs c ++ [fnEv data]) (stop c' st))) ->
  (forall data i2 rest2,
      rest1 = i2 :: rest2 ->
      awaitLogin (hof c) = Fulfils (ClientSuccess data) ->
      settingsVersion c2 = settingsVersion c ->
      settingsVersion (interfere i2 c2) <> settingsVersion c ->
      Q (emit (EvEnter b :: reqs c ++ [fnEv data])
              (wrapped rest2 (interfere i2 c2) (S n) options true))) ->
  (forall data i2 rest2 code,
      rest1 = i2 :: rest2 ->
      awaitLogin (hof c) = Fulfils (ClientSuccess data) ->
      settingsVersion c2 = settingsVersion c ->
      settingsVersion (interfere i2 c2) = settingsVersion c ->
      Q (emit (EvEnter b :: reqs c ++ [fnEv data])
              (retryOr (fun c' => wrapped rest2 c' (S n) options false) b
                       (interfere i2 c2) (inr code)))) ->
  Q (wrapped (i1 :: rest1) c n options b).
Proof.
  intros c2 fnEv Hrestart1 Hfail1 Hstop Hrestart2 Hfail2.
  rewrite wrapped_cons. cbv zeta. fold c2.
  destruct (await_login_fulfils (hof c)) as [lr HL]. rewrite HL.
  destruct (negb (settingsVersion c2 =? settingsVersion c)) eqn:E1.
  { apply Hrestart1. now apply Nat.eqb_neq, negb_true_iff. }
  apply negb_false_iff, Nat.eqb_eq in E1.
  destruct lr as [data|f|f]; cbn [failure_of];
    [|now apply Hfail1 with (lr := ClientFailure f)
     |now apply Hfail1 with (lr := Connection f)].
  rewrite emit_emit. fold (fnEv data).
  change ((EvEnter b :: reqs c) ++ [fnEv data])
    with (EvEnter b :: reqs c ++ [fnEv data]).
  destruct (fn _ _ _ _) as [e|p];
    [apply Hstop; try assumption; intros; discriminate|].
  destruct rest1 as [|i2 rest2];
    [apply Hstop; try assumption; intros; try discriminate; reflexivity|].
  destruct p as [response|e];
    [|apply Hstop; try assumption; intros; discriminate].
  destruct (negb (settingsVersion (interfere i2 c2) =? settingsVersion c)) eqn:E2.
  { apply Hrestart2; try assumption; try reflexivity.
    now apply Nat.eqb_neq, negb_true_iff. }
  apply negb_false_iff, Nat.eqb_eq in E2.
  destruct response as [d|code];
    [apply Hstop; try assumption; intros; discriminate|].
  now apply Hfail2.
Qed.

Lemma enters_wrapped script :
  forall c n b,
    exists l, enters (trace (wrapped script c n options b)) = b :: l
              /\ single_retries (b :: l) = true.
Proof.
  induction script as [script IH] using script_ind. intros c n b.
  destruct script as [|i1 rest1].
  { rewrite wrapped_nil, enters_attempt. exists []. split; [reflexivity|].
    now destruct b. }
  assert (Hrestart : forall evs rest c' n',
             enters evs = [b] ->
             List.length rest < List.length (i1 :: rest1) ->
             exists l, enters (trace (emit evs (wrapped rest c' n' options true)))
                       = b :: l /\ single_retries (b :: l) = true).
  { intros evs rest c' n' Hevs Hlt.
    destruct (IH rest Hlt c' n' true) as (l & Hl & Hs).
    unfold emit. cbn [trace]. rewrite enters_app, Hevs, Hl.
    exists (true :: l). split; [reflexivity|].
    apply single_retries_cons; auto. }
  assert (Hstop : forall evs c' st,
             enters evs = [b] ->
             exists l, enters (trace (emit evs
                         (stop c' st : Run (ClientRequestResult U))))
                       = b :: l /\ single_retries (b :: l) = true).
  { intros evs c' st Hevs. unfold emit. cbn [trace stop].
    rewrite app_nil_r, Hevs. exists []. split; [reflexivity|]. now destruct b. }
  assert (Hretry : forall evs rest c' n' result,
             enters evs = [b] ->
             List.length rest < List.length (i1 :: rest1) ->
             exists l, enters (trace (emit evs
                         (retryOr (fun x => wrapped rest x n' options false)
                                  b c' result)))
                       = b :: l /\ single_retries (b :: l) = true).
  { intros evs rest c' n' result Hevs Hlt.
    destruct (retry_or_cases (fun x => wrapped rest x n' options false) b c' result)
      as [(Hb & _ & ->)| ->]; [|now apply Hstop].
    destruct (IH rest Hlt (clear c') n' false) as (l & Hl & Hs).
    unfold emit. cbn [trace]. rewrite enters_app, Hevs, Hl.
    exists (false :: l). split; [reflexivity|].
    apply single_retries_cons; auto. }
  assert (He1 : enters (EvEnter b :: reqs c) = [b]).
  { change (EvEnter b :: reqs c) with ([EvEnter b] ++ reqs c).
    now rewrite enters_app, enters_reqs. }
  assert (He2 : forall ev,
             enters [ev] = [] ->
             enters (EvEnter b :: reqs c ++ [ev]) = [b]).
  { intros ev Hev.
    change (EvEnter b :: reqs c ++ [ev]) with ([EvEnter b] ++ reqs c ++ [ev]).
    now rewrite !enters_app, enters_reqs, Hev. }
  apply wrapped_paths.
  - intros _. now apply Hrestart; [|simpl; lia].
  - intros lr result _ _ _. now apply Hretry; [|simpl; lia].
  - intros data c' st _ _ _ _. apply Hstop. now apply He2.
  - intros data i2 rest2 -> _ _ _. apply Hrestart; [now apply He2|simpl; lia].
  - intros data i2 rest2 code -> _ _ _. apply Hretry; [now apply He2|simpl; lia].
Qed.

(** *** With a stable version: at most two attempts *)

Lemma stable_bound script c n b :
  Forall VersionStable script ->
  count_fn (trace (wrapped script c n options b)) <= 2
  /\ count_enter (trace (wrapped script c n options b)) <= 2.
Proof.
  intros HS.
  destruct script as [|i1 rest1].
  { rewrite wrapped_nil, enter_attempt, fn_attempt. counted. }
  inversion HS as [|? ? H1 HS1]; subst.
  assert (Hc : forall evs (X : Run (ClientRequestResult U)),
             count_fn evs + count_fn (trace X) <= 2 ->
             count_enter evs + count_enter (trace X) <= 2 ->
             count_fn (trace (emit evs X)) <= 2
             /\ count_enter (trace (emit evs X)) <= 2).
  { intros evs X Hf He. unfold emit. cbn [trace].
    now rewrite count_fn_app, count_enter_app. }
  assert (He1 : count_fn (EvEnter b :: reqs c) = 0
                /\ count_enter (EvEnter b :: reqs c) = 1).
  { change (EvEnter b :: reqs c) with ([EvEnter b] ++ reqs c).
    now rewrite count_fn_app, count_enter_app, count_fn_reqs, count_enter_reqs. }
  assert (He2 : forall url s lg,
             count_fn (EvEnter b :: reqs c ++ [EvFn url s lg]) = 1
             /\ count_enter (EvEnter b :: reqs c ++ [EvFn url s lg]) = 1).
  { intros url s lg.
    change (EvEnter b :: reqs c ++ [EvFn url s lg])
      with ([EvEnter b] ++ reqs c ++ [EvFn url s lg]).
    now rewrite !count_fn_app, !count_enter_app, count_fn_reqs, count_enter_reqs. }
  assert (Hretry : forall rest c' n' result,
             Forall VersionStable rest ->
             count_fn (trace (retryOr (fun x => wrapped rest x n' options false)
                                      b c' result)) <= 1
             /\ count_enter (trace (retryOr (fun x => wrapped rest x n' options false)
                                            b c' result)) <= 1).
  { intros rest c' n' result Hrest.
    destruct (retry_or_cases (fun x => wrapped rest x n' options false) b c' result)
      as [(Hb & _ & ->)| ->]; [|counted].
    destruct (spent_attempt rest (clear c') n' Hrest) as (He & Hf & _). lia. }
  apply wrapped_paths.
  - intros HV. exfalso. apply HV. now rewrite H1, maybeLogin_version.
  - intros lr result _ _ _.
    destruct (Hretry rest1 (interfere i1 (c1of c)) n result HS1).
    destruct He1. apply Hc; lia.
  - intros data c' st _ _ _ _.
    destruct (He2 (baseUrl_opt (settings (interfere i1 (c1of c)))) (sid data)
                  (login_of (hof c))) as [Ha Hb].
    apply Hc; rewrite ?Ha, ?Hb; counted.
  - intros data i2 rest2 -> _ _ HV. exfalso. apply HV.
    inversion HS1; subst. now rewrite H2, H1, maybeLogin_version.
  - intros data i2 rest2 code -> _ _ _.
    inversion HS1 as [|? ? H2 HS2]; subst.
    destruct (Hretry rest2 (interfere i2 (interfere i1 (c1of c))) (S n)
                     (inr code) HS2).
    destruct (He2 (baseUrl_opt (settings (interfere i1 (c1of c)))) (sid data)
                  (login_of (hof c))) as [Ha Hb].
    apply Hc; rewrite ?Ha, ?Hb; lia.
Qed.

(** *** Login promises created after a given moment *)

Lemma clear_fresh N c : Fresh N c -> Fresh N (clear c).
Proof. intros [H1 H2]. split; [exact H1|]. simpl. discriminate. Qed.

Lemma maybeLogin_fresh N c :
  Fresh N c ->
  Fresh N (c1of c) /\ (forall p, hof c = Shared p -> N <= pid p).
Proof.
  intros [H1 H2]. unfold maybeLogin.
  destruct (getValidatedSettings c) as [s|]; [|split; [now split|discriminate]].
  destruct (loginPromise c) as [p|] eqn:E; cbn [fst snd].
  - split; [split; [exact H1|now rewrite E]|].
    intros q [= <-]. now apply H2.
  - split.
    + split; simpl; [lia|]. intros q [= <-]. simpl. lia.
    + intros q [= <-]. simpl. lia.
Qed.

Lemma updateSettings_fresh N s c :
  Fresh N c -> Fresh N (snd (fst (updateSettings s c))).
Proof.
  intros H. unfold updateSettings.
  destruct (existsb _ _); [|exact H].
  destruct H as [H1 H2]. split; simpl; [exact H1|discriminate].
Qed.

Lemma act_fresh N a c : Fresh N c -> Fresh N (act a c).
Proof.
  intros H. destruct a; simpl.
  - now apply updateSettings_fresh.
  - now apply maybeLogin_fresh.
  - now apply clear_fresh.
  - now apply clear_fresh.
  - exact H.
  - exact H.
Qed.

Lemma interfere_fresh N acts : forall c, Fresh N c -> Fresh N (interfere acts c).
Proof.
  unfold interfere. induction acts as [|a acts IH]; simpl; intros c H;
    [exact H|]. apply IH. now apply act_fresh.
Qed.

Lemma reqs_no_fn c url s lg : ~ In (EvFn url s lg) (reqs c).
Proof.
  unfold maybeLogin.
  destruct (getValidatedSettings c); [destruct (loginPromise c)|]; simpl;
    intuition discriminate.
Qed.

Lemma success_is_shared h data :
  awaitLogin h = Fulfils (ClientSuccess data) -> exists p, h = Shared p.
Proof. destruct h as [f|p]; simpl; [discriminate|eauto]. Qed.

Lemma wrapped_fresh N script :
  forall c n b,
    Fresh N c ->
    forall url s lg,
      In (EvFn url s lg) (trace (wrapped script c n options b)) ->
      exists p, lg = Some p /\ N <= p.
Proof.
  induction script as [script IH] using script_ind. intros c n b HF.
  destruct (maybeLogin_fresh N c HF) as [HF1 Hh].
  assert (Hin : forall evs (X : Run (ClientRequestResult U)) url s lg,
             In (EvFn url s lg) (trace (emit (EvEnter b :: reqs c ++ evs) X)) ->
             In (EvFn url s lg) evs \/ In (EvFn url s lg) (trace X)).
  { intros evs X url s lg H. unfold emit in H. cbn [trace] in H.
    destruct H as [H|H]; [discriminate|].
    rewrite <- app_assoc in H.
    apply in_app_or in H. destruct H as [H|H]; [now apply reqs_no_fn in H|].
    now apply in_app_or. }
  destruct script as [|i1 rest1].
  { rewrite wrapped_nil. intros url s lg H.
    rewrite <- (app_nil_r (reqs c)) in H. apply Hin in H. simpl in H. tauto. }
  assert (HF2 : Fresh N (interfere i1 (c1of c))) by now apply interfere_fresh.
  assert (Hretry : forall rest c' n' result url s lg,
             Fresh N c' ->
             List.length rest < List.length (i1 :: rest1) ->
             In (EvFn url s lg)
                (trace (retryOr (fun x => wrapped rest x n' options false)
                                b c' result)) ->
             exists p, lg = Some p /\ N <= p).
  { intros rest c' n' result url s lg HF' Hlt.
    destruct (retry_or_cases (fun x => wrapped rest x n' options false) b c' result)
      as [(Hb & _ & ->)| ->]; [|simpl; tauto].
    apply IH; [assumption|now apply clear_fresh]. }
  assert (Hev : forall data,
             awaitLogin (hof c) = Fulfils (ClientSuccess data) ->
             forall url s lg,
               In (EvFn url s lg)
                  [EvFn (baseUrl_opt (settings (interfere i1 (c1of c)))) (sid data)
                        (login_of (hof c))] ->
               exists p, lg = Some p /\ N <= p).
  { intros data HL url s lg [[= _ _ <-]|[]].
    destruct (success_is_shared _ _ HL) as [p Hp].
    rewrite Hp. simpl. exists (pid p). split; [reflexivity|]. now apply Hh. }
  apply wrapped_paths.
  - intros _ url s lg H.
    rewrite <- (app_nil_r (reqs c)) in H. apply Hin in H.
    destruct H as [[]|H]. revert H. apply IH; [simpl; lia|assumption].
  - intros lr result _ _ _ url s lg H.
    rewrite <- (app_nil_r (reqs c)) in H. apply Hin in H.
    destruct H as [[]|H]. revert H. apply Hretry; [assumption|simpl; lia].
  - intros data c' st HL _ _ _ url s lg H. apply Hin in H.
    destruct H as [H|[]]. revert H. now apply Hev.
  - intros data i2 rest2 -> HL _ _ url s lg H. apply Hin in H.
    destruct H as [H|H]; [revert H; now apply Hev|].
    revert H. apply IH; [simpl; lia|now apply interfere_fresh].
  - intros data i2 rest2 code -> HL _ _ url s lg H. apply Hin in H.
    destruct H as [H|H]; [revert H; now apply Hev|].
    revert H. apply Hretry; [now apply interfere_fresh|simpl; lia].
Qed.

(** ** The settings holder *)

Lemma strict_eq_true a b : strict_eq a b = true <-> a = b.
Proof.
  destruct a as [x|], b as [y|]; simpl; split; intros H;
    try discriminate; try reflexivity.
  - apply String.eqb_eq in H. now subst.
  - injection H as ->. apply String.eqb_refl.
Qed.

Lemma strict_eq_false a b : a <> b -> negb (strict_eq a b) = true.
Proof.
  intros H. apply negb_true_iff. destruct (strict_eq a b) eqn:E; [|reflexivity].
  apply strict_eq_true in E. contradiction.
Qed.

Lemma updateSettings_changed_eq s c :
  baseUrl_opt s <> baseUrl_opt (settings c)
  \/ account_opt s <> account_opt (settings c)
  \/ passwd_opt s <> passwd_opt (settings c)
  \/ session_opt s <> session_opt (settings c) ->
  updateSettings s c =
  (true,
   {| loginPromise := None;
      settingsVersion := S (settingsVersion c);
      onSettingsChangeListeners := onSettingsChangeListeners c;
      settings := s;
      allocated := allocated c |},
   Some {| stashedLoginPromise := loginPromise c;
           validated :=
             getValidatedSettings
               {| loginPromise := loginPromise c;
                  settingsVersion := S (settingsVersion c);
                  onSettingsChangeListeners := onSettingsChangeListeners c;
                  settings := s;
                  allocated := allocated c |} |}).
Proof.
  intros H. unfold updateSettings.
  assert (E : existsb (fun k => negb (strict_eq (field s k) (field (settings c) k)))
                      SETTING_NAME_KEYS = true).
  { apply existsb_exists.
    destruct H as [H|[H|[H|H]]];
      [exists k_baseUrl|exists k_account|exists k_passwd|exists k_session];
      (split; [simpl; tauto | now apply strict_eq_false]). }
  rewrite E. reflexivity.
Qed.

Lemma act_version_mono a c : settingsVersion c <= settingsVersion (act a c).
Proof.
  destruct a; simpl; try lia.
  - unfold updateSettings. destruct (existsb _ _); simpl; lia.
  - rewrite maybeLogin_version. lia.
Qed.

Lemma interfere_version_mono acts :
  forall c, settingsVersion c <= settingsVersion (interfere acts c).
Proof.
  unfold interfere. induction acts as [|a acts IH]; simpl; intros c; [lia|].
  specialize (IH (act a c)). pose proof (act_version_mono a c). lia.
Qed.

Lemma interfere_app acts1 acts2 c :
  interfere (acts1 ++ acts2) c = interfere acts2 (interfere acts1 c).
Proof. unfold interfere. apply fold_left_app. Qed.

(** C3.  [updateSettings] with a value that differs from the stored settings
    in at least one recognized field returns [true], adds exactly one to the
    version, stores the new value and clears [loginPromise] before returning.
    From then on, whatever the other tasks do and whenever a proxied call is
    made, every session id passed to the endpoint function comes from a login
    promise created after the update (numbered [allocated c] or more), and so
    does every promise the login operation hands out.  The same holds for a
    proxied call that was awaiting its login when the update happened. *)
Theorem updateSettings_changed_invalidates_session
    (s : PartialSettings) (c : SynologyClient) :
  baseUrl_opt s <> baseUrl_opt (settings c)
  \/ account_opt s <> account_opt (settings c)
  \/ passwd_opt s <> passwd_opt (settings c)
  \/ session_opt s <> session_opt (settings c) ->
  let c' := snd (fst (updateSettings s c)) in
  fst (fst (updateSettings s c)) = true
  /\ settingsVersion c' = settingsVersion c + 1
  /\ settings c' = s
  /\ loginPromise c' = None
  /\ (forall acts script n b url sid_ lg,
        In (EvFn url sid_ lg)
           (trace (wrapped script (interfere acts c') n options b)) ->
        exists p, lg = Some p /\ allocated c <= p)
  /\ (forall acts p,
        hof (interfere acts c') = Shared p -> allocated c <= pid p)
  /\ (forall c0 before after rest n b url sid_ lg,
        c = interfere before (c1of c0) ->
        In (EvFn url sid_ lg)
           (trace (wrapped ((before ++ ActUpdateSettings s :: after) :: rest)
                           c0 n options b)) ->
        exists p, lg = Some p /\ allocated c <= p).
Proof.
  intros H c'.
  assert (Hc' : c' = {| loginPromise := None;
                        settingsVersion := S (settingsVersion c);
                        onSettingsChangeListeners := onSettingsChangeListeners c;
                        settings := s;
                        allocated := allocated c |}).
  { subst c'. now rewrite (updateSettings_changed_eq s c H). }
  assert (HF : Fresh (allocated c) c').
  { rewrite Hc'. split; simpl; [lia|discriminate]. }
  split; [now rewrite (updateSettings_changed_eq s c H)|].
  split; [rewrite Hc'; simpl; lia|].
  split; [now rewrite Hc'|].
  split; [now rewrite Hc'|].
  split.
  { intros acts script n b url sid_ lg.
    apply wrapped_fresh. now apply interfere_fresh. }
  split.
  { intros acts p.
    apply (maybeLogin_fresh (allocated c) (interfere acts c')).
    now apply interfere_fresh. }
  intros c0 before after rest n b url sid_ lg Hc Hin.
  assert (Hstate : interfere (before ++ ActUpdateSettings s :: after) (c1of c0)
                   = interfere after c').
  { rewrite interfere_app, <- Hc. reflexivity. }
  assert (Hmoved : settingsVersion
                     (interfere (before ++ ActUpdateSettings s :: after) (c1of c0))
                   <> settingsVersion c0).
  { rewrite Hstate.
    pose proof (interfere_version_mono after c') as H1.
    pose proof (interfere_version_mono before (c1of c0)) as H2.
    rewrite <- Hc, maybeLogin_version in H2.
    rewrite Hc' in H1 at 1. simpl in H1. lia. }
  rewrite (restart_after_login _ rest c0 n b Hmoved), Hstate in Hin.
  unfold emit in Hin. cbn [trace] in Hin.
  destruct Hin as [Hin|Hin]; [discriminate|].
  apply in_app_or in Hin. destruct Hin as [Hin|Hin];
    [now apply reqs_no_fn in Hin|].
  revert Hin. apply wrapped_fresh. now apply interfere_fresh.
Qed.

(** ** The session manager *)

Lemma maybeLogin_cached c p s :
  loginPromise c = Some p -> getValidatedSettings c = Some s ->
  maybeLogin c = (c, [], Shared p).
Proof. unfold maybeLogin. now intros -> ->. Qed.

Lemma act_keeps a c p s :
  keeps_session a = true ->
  loginPromise c = Some p -> getValidatedSettings c = Some s ->
  loginPromise (act a c) = Some p
  /\ getValidatedSettings (act a c) = Some s
  /\ allocated (act a c) = allocated c.
Proof.
  intros Ha Hp Hs. destruct a; try discriminate; simpl.
  - rewrite (maybeLogin_cached c p s Hp Hs). simpl. auto.
  - repeat split; try assumption.
  - repeat split; try assumption.
Qed.

Lemma interfere_keeps acts :
  forall c p s,
    forallb keeps_session acts = true ->
    loginPromise c = Some p -> getValidatedSettings c = Some s ->
    loginPromise (interfere acts c) = Some p
    /\ getValidatedSettings (interfere acts c) = Some s
    /\ allocated (interfere acts c) = allocated c.
Proof.
  unfold interfere.
  induction acts as [|a acts IH]; simpl; intros c p s H Hp Hs; [auto|].
  apply andb_prop in H. destruct H as [Ha Hacts].
  destruct (act_keeps a c p s Ha Hp Hs) as (Hp' & Hs' & Hal).
  destruct (IH (act a c) p s Hacts Hp' Hs') as (Hp'' & Hs'' & Hal'').
  repeat split; congruence.
Qed.

(** C2.  Once a login promise [p] is cached and the settings are valid, any
    sequence of further calls of the login operation (with listener
    bookkeeping in between, which leaves settings and cache alone) keeps [p]
    cached, and a call made after it returns the same promise [p], makes no
    request and creates no promise.  A call of the login operation makes a
    request only when no promise is cached; with valid settings and nothing
    cached it makes the version-2 request for a new promise. *)
Theorem login_is_single_flight
    (c : SynologyClient) (p : LoginPromise) (s : SynologyClientSettings)
    (calls : list Action) :
  loginPromise c = Some p ->
  getValidatedSettings c = Some s ->
  forallb keeps_session calls = true ->
  maybeLogin (interfere calls c) = (interfere calls c, [], Shared p)
  /\ loginPromise (interfere calls c) = Some p
  /\ allocated (interfere calls c) = allocated c
  /\ (forall c0, reqs c0 <> [] -> loginPromise c0 = None)
  /\ (forall c0 s0,
        loginPromise c0 = None -> getValidatedSettings c0 = Some s0 ->
        reqs c0 = [EvAuthLogin (allocated c0) s0 2]).
Proof.
  intros Hp Hs Hcalls.
  destruct (interfere_keeps calls c p s Hcalls Hp Hs) as (Hp' & Hs' & Hal).
  repeat split; try assumption.
  - now apply maybeLogin_cached with (s := s).
  - intros c0. unfold maybeLogin.
    destruct (getValidatedSettings c0); [destruct (loginPromise c0)|];
      simpl; congruence.
  - intros c0 s0 H0 Hs0. unfold maybeLogin. now rewrite Hs0, H0.
Qed.

(** C5.  A login attempt with valid settings and nothing cached makes its
    first request at protocol version 2 and caches the new promise.  The
    promise makes one further request, at version 3, exactly when the
    version-2 request resolves to a failure response with code 103; its
    result is then the result of the version-3 request.  In every other case
    (success, another code, a thrown error) it makes no further request and
    its result is that of the version-2 request, a thrown error being
    classified as a connection failure. *)
Theorem login_probes_version_2_then_3
    (c : SynologyClient) (s : SynologyClientSettings) :
  getValidatedSettings c = Some s ->
  loginPromise c = None ->
  let p := {| pid := allocated c; captured := s |} in
  let conclude := fun r : Settled (RestApiResponse AuthLoginResponse) =>
    match r with
    | Fulfils response => ClientRequestResult_from response Auth_API_NAME
    | Rejects e => Connection (ConnectionFailure_from e)
    end in
  reqs c = [EvAuthLogin (allocated c) s 2]
  /\ hof c = Shared p
  /\ loginPromise (c1of c) = Some p
  /\ (effects (chain p) = [EvAuthLogin (allocated c) s 3]
      <-> Auth_Login (allocated c) s 2 = Fulfils (RestFailure 103))
  /\ (Auth_Login (allocated c) s 2 = Fulfils (RestFailure 103) ->
      awaitLogin (hof c) = Fulfils (conclude (Auth_Login (allocated c) s 3)))
  /\ (Auth_Login (allocated c) s 2 <> Fulfils (RestFailure 103) ->
      effects (chain p) = []
      /\ awaitLogin (hof c) = Fulfils (conclude (Auth_Login (allocated c) s 2))).
Proof.
  intros Hs Hp p conclude.
  assert (E : maybeLogin c =
              ({| loginPromise := Some p;
                  settingsVersion := settingsVersion c;
                  onSettingsChangeListeners := onSettingsChangeListeners c;
                  settings := settings c;
                  allocated := S (allocated c) |},
               [EvAuthLogin (allocated c) s 2], Shared p)).
  { unfold maybeLogin. now rewrite Hs, Hp. }
  rewrite E. cbn [fst snd loginPromise await_login].
  unfold loginChain, catch_, then_value, then_. cbn [pid captured p promise_of effects settled].
  split; [reflexivity|]. split; [reflexivity|]. split; [reflexivity|].
  destruct (Auth_Login (allocated c) s 2) as [[d|code]|e] eqn:E2; cbn.
  - repeat split; intros; try discriminate; try congruence.
  - destruct (code =? NO_SUCH_METHOD_ERROR_CODE)%Z eqn:Ec.
    + apply Z.eqb_eq in Ec. unfold NO_SUCH_METHOD_ERROR_CODE in Ec. subst code. cbn.
      destruct (Auth_Login (allocated c) s 3) as [r|e]; cbn;
        repeat split; intros; try reflexivity; try congruence;
        exfalso; auto.
    + apply Z.eqb_neq in Ec. unfold NO_SUCH_METHOD_ERROR_CODE in Ec. cbn.
      repeat split; intros; try discriminate; try congruence.
  - repeat split; intros; try discriminate; try congruence.
Qed.

End Proofs.

(** ** Logging out *)

Section LogoutProofs.

Variable Auth_API_NAME : string.
Variable Auth_Login :
  nat -> SynologyClientSettings -> Z -> Settled (RestApiResponse AuthLoginResponse).
Variable Auth_Logout :
  string -> string -> string -> Settled (RestApiResponse unit).

Local Abbreviation awaitLogin := (await_login Auth_API_NAME Auth_Login).
Local Abbreviation chain := (loginChain Auth_API_NAME Auth_Login).
Local Abbreviation clear c := (set_loginPromise None c).

(** C8.  [updateSettings] with a value whose four recognized fields all equal
    the stored ones returns [false] and leaves the client exactly as it was:
    same version, same settings, same cached login promise; no logout is
    started, so no request is ever made on its behalf. *)
Theorem updateSettings_unchanged_is_noop
    (script : list (list Action)) (s : PartialSettings) (c : SynologyClient) :
  baseUrl_opt s = baseUrl_opt (settings c) ->
  account_opt s = account_opt (settings c) ->
  passwd_opt s = passwd_opt (settings c) ->
  session_opt s = session_opt (settings c) ->
  updateSettings s c = (false, c, None)
  /\ settingsVersion (snd (fst (updateSettings s c))) = settingsVersion c
  /\ settings (snd (fst (updateSettings s c))) = settings c
  /\ loginPromise (snd (fst (updateSettings s c))) = loginPromise c
  /\ updateSettings_trace Auth_API_NAME Auth_Login Auth_Logout script s c = [].
Proof.
  intros Hb Ha Hp Hs.
  assert (E : updateSettings s c = (false, c, None)).
  { unfold updateSettings. simpl. rewrite Hb, Ha, Hp, Hs.
    rewrite !(proj2 (strict_eq_true _ _) eq_refl). reflexivity. }
  unfold updateSettings_trace. rewrite E. repeat split.
Qed.

(** No call of [updateSettings], effective or not, and
    nothing the logout it starts does later, calls a listener: the list filled
    by [onSettingsChange] is never read. *)
Theorem updateSettings_calls_no_listener
    (script : list (list Action)) (s : PartialSettings) (c : SynologyClient)
    (l : Listener) :
  ~ In (EvListener l)
       (updateSettings_trace Auth_API_NAME Auth_Login Auth_Logout script s c).
Proof.
  unfold updateSettings_trace, updateSettings.
  destruct (existsb _ _); [|simpl; tauto].
  cbn [maybeLogout_begin fst snd]. unfold maybeLogout_resume. cbn [stashedLoginPromise validated].
  destruct (loginPromise c) as [p|]; [|simpl; tauto].
  destruct (getValidatedSettings _) as [v|]; [|simpl; tauto].
  cbn [loginPromise].
  destruct script as [|i1 rest]; [simpl; tauto|].
  destruct (settled (chain p)) as [[data|f|f]|e]; try (simpl; tauto).
  destruct rest as [|i2 rest]; [simpl; intuition congruence|].
  destruct (Auth_Logout _ _ _); simpl; intuition congruence.
Qed.

Local Abbreviation logout := (maybeLogout Auth_API_NAME Auth_Login Auth_Logout).

(** C6, amended.  [maybeLogout] stashes and clears [loginPromise] before its
    first suspension, and writes nothing to the client afterwards: its final
    state is the cleared one, changed only by what the other tasks did during
    the at most two suspensions it went through.  With nothing cached it
    returns [not-logged-in] and makes no request.  With a promise cached but
    settings that are not valid it returns a [missing-config] failure at once,
    without awaiting the login and without a request.  With valid settings it
    awaits the stashed login: a connection failure or a failure response is
    returned as it is, with no request; a success leads to exactly one
    [Auth.Logout] request, made with the session id of that login, whose
    response (tagged with the Auth group on failure) or classified thrown
    error is returned.  A logout request is made only for a stashed login
    that resolved successfully. *)
Theorem logout_is_best_effort (script : list (list Action)) (c : SynologyClient) :
  let run := logout script c in
  (final (logout [] c) = clear c /\ trace (logout [] c) = [])
  /\ (exists k, k <= 2 /\
        final run = fold_left (fun c' acts => interfere acts c')
                              (firstn k script) (clear c))
  /\ (loginPromise c = None -> run = stop (clear c) (Resolved not_logged_in))
  /\ (forall p,
        loginPromise c = Some p -> getValidatedSettings c = None ->
        run = stop (clear c) (Resolved (logout_result (Connection missing_config))))
  /\ (forall p s i1 rest,
        loginPromise c = Some p -> getValidatedSettings c = Some s ->
        script = i1 :: rest ->
        (forall f,
            awaitLogin (Shared p) = Fulfils (Connection f) ->
            run = stop (interfere i1 (clear c))
                       (Resolved (logout_result (Connection f))))
        /\ (forall f,
            awaitLogin (Shared p) = Fulfils (ClientFailure f) ->
            run = stop (interfere i1 (clear c))
                       (Resolved (logout_result (ClientFailure f))))
        /\ (forall data,
            awaitLogin (Shared p) = Fulfils (ClientSuccess data) ->
            trace run = [EvAuthLogout (baseUrl s) (sid data) (session s)]
            /\ (forall i2 rest2,
                  rest = i2 :: rest2 ->
                  status run =
                  Resolved (logout_result
                    match Auth_Logout (baseUrl s) (sid data) (session s) with
                    | Fulfils r => ClientRequestResult_from r Auth_API_NAME
                    | Rejects e => Connection (ConnectionFailure_from e)
                    end))))
  /\ (forall ev,
        In ev (trace run) -> is_logout_request ev = true ->
        exists p data,
          loginPromise c = Some p
          /\ awaitLogin (Shared p) = Fulfils (ClientSuccess data)).
Proof.
  intros run. subst run. unfold maybeLogout, maybeLogout_begin, maybeLogout_resume.
  cbn [stashedLoginPromise validated await_login].
  split.
  { destruct (loginPromise c); [destruct (getValidatedSettings c)|]; split; reflexivity. }
  split.
  { destruct (loginPromise c) as [p|]; [|exists 0; split; [lia|reflexivity]].
    destruct (getValidatedSettings c) as [s|]; [|exists 0; split; [lia|reflexivity]].
    destruct script as [|i1 rest]; [exists 0; split; [lia|reflexivity]|].
    destruct (settled (chain p)) as [[data|f|f]|e];
      try (exists 1; split; [lia|reflexivity]).
    destruct rest as [|i2 rest2]; [exists 1; split; [lia|reflexivity]|].
    exists 2. split; [lia|]. destruct (Auth_Logout _ _ _); reflexivity. }
  split; [now intros ->|].
  split; [now intros p -> ->|].
  split.
  { intros p s i1 rest -> -> ->. repeat split.
    - now intros f ->.
    - now intros f ->.
    - rewrite H. destruct rest; [reflexivity|].
      destruct (Auth_Logout _ _ _); reflexivity.
    - intros i2 rest2 ->. rewrite H. destruct (Auth_Logout _ _ _); reflexivity. }
  intros ev Hin Hev.
  destruct (loginPromise c) as [p|]; [|destruct Hin].
  destruct (getValidatedSettings c) as [s|]; [|destruct Hin].
  destruct script as [|i1 rest]; [destruct Hin|].
  destruct (settled (chain p)) as [[data|f|f]|e] eqn:E;
    [|destruct Hin|destruct Hin|destruct Hin].
  exists p, data. split; [reflexivity|exact E].
Qed.

End LogoutProofs.

(** ** Restarts and the retry allowance *)

(** C10.  When the version has moved at the checkpoint after the login or
    after the endpoint call, the attempt ends by running [wrappedFunction]
    again with [shouldRetryRoutineFailures = true], whatever allowance the
    attempt itself had.  In every run no attempt with the allowance spent is
    directly followed by another such attempt (one retry per settings
    version), and while the version is stable the endpoint function is
    invoked at most twice; but one external call can invoke it three times
    when the settings change between the attempts. *)
Theorem restart_resets_retry_allowance :
  (forall (Auth_API_NAME : string)
          (Auth_Login : nat -> SynologyClientSettings -> Z ->
                        Settled (RestApiResponse AuthLoginResponse))
          (T U : Type)
          (fn : option string -> string -> T -> nat -> Called (RestApiResponse U))
          (group : string) (options : T)
          (script : list (list Action)) (c : SynologyClient) (n : nat) (b : bool),
      let wrapped := wrappedFunction Auth_API_NAME Auth_Login T U fn group in
      let c1 := fst (fst (maybeLogin c)) in
      let requests := snd (fst (maybeLogin c)) in
      let h := snd (maybeLogin c) in
      (forall i1 rest1,
          script = i1 :: rest1 ->
          settingsVersion (interfere i1 c1) <> settingsVersion c ->
          wrapped script c n options b =
          emit (EvEnter b :: requests)
               (wrapped rest1 (interfere i1 c1) n options true))
      /\ (forall i1 i2 rest2 data response,
          script = i1 :: i2 :: rest2 ->
          await_login Auth_API_NAME Auth_Login h = Fulfils (ClientSuccess data) ->
          settingsVersion (interfere i1 c1) = settingsVersion c ->
          fn (baseUrl_opt (settings (interfere i1 c1))) (sid data) options n
            = Returns (Fulfils response) ->
          settingsVersion (interfere i2 (interfere i1 c1)) <> settingsVersion c ->
          wrapped script c n options b =
          emit (EvEnter b :: requests ++
                  [EvFn (baseUrl_opt (settings (interfere i1 c1))) (sid data)
                        (login_of h)])
               (wrapped rest2 (interfere i2 (interfere i1 c1)) (S n) options true))
      /\ (exists l,
            enters (trace (wrapped script c n options b)) = b :: l
            /\ single_retries (b :: l) = true)
      /\ (Forall VersionStable script ->
          count_fn (trace (wrapped script c n options b)) <= 2
          /\ count_enter (trace (wrapped script c n options b)) <= 2))
  /\ 2 < count_fn (trace (proxy "SYNO.API.Auth" Scenario.login_ok
                            unit nat Scenario.fn_ok "Task"
                            [[]; [ActUpdateSettings Scenario.S1];
                             []; [ActUpdateSettings Scenario.S0];
                             []; []]
                            Scenario.fresh_client tt)).
Proof.
  split.
  - intros Auth_API_NAME Auth_Login T U fn group options script c n b
           wrapped c1 requests h.
    split; [|split; [|split]].
    + intros i1 rest1 -> HV. now apply restart_after_login.
    + intros i1 i2 rest2 data response -> HL HV HF HV2.
      now apply restart_after_endpoint with (response := response).
    + apply enters_wrapped.
    + apply stable_bound.
  - vm_compute. lia.
Qed.

(** ** The properties at concrete inputs *)

Import Scenario.

(** C7 at an endpoint that answers with code 400: returned at once, tagged
    with the proxy's group. *)
Lemma failure_surfaced_without_retry_witness :
  VersionStable []
  /\ status (wrappedFunction "SYNO.API.Auth" login_ok unit nat
               (fn_fails_once 400) "Task" [[]; []] fresh_client 0 tt true)
     = Resolved (ClientFailure {| error_code := 400; apiGroup := "Task" |})
  /\ count_fn
       (trace (wrappedFunction "SYNO.API.Auth" login_ok unit nat
                 (fn_fails_once 400) "Task" [[]; []] fresh_client 0 tt true))
     = 1.
Proof.
  split; [apply nil_stable|].
  destruct (failure_surfaced_without_retry
              "SYNO.API.Auth" login_ok unit nat (fn_fails_once 400) "Task" tt
              fresh_client 0 true [] nil_stable) as [Hendpoint _].
  destruct (Hendpoint {| sid := "sid" |} [] [] 400%Z nil_stable
                      eq_refl eq_refl) as (Hstatus & Hfn & _).
  - right. split; discriminate.
  - split; assumption.
Defined.

(** C7 as stated fails: the endpoint answers with code 400 (neither 106 nor
    105) to its first invocation, the settings change meanwhile, and the call
    does not return that failure but invokes the endpoint a second time. *)
Lemma failure_surfaced_counterexample :
  let r := wrappedFunction "SYNO.API.Auth" login_ok unit nat
             (fn_fails_once 400) "Task"
             [[]; [ActUpdateSettings S1]; []; []] fresh_client 0 tt true in
  fn_fails_once 400 (Some "http://h"%string) "sid" tt 0
    = Returns (Fulfils (RestFailure 400))
  /\ count_fn (trace r) = 2
  /\ status r = Resolved (ClientSuccess 1)
  /\ status r <> Resolved (ClientFailure {| error_code := 400; apiGroup := "Task" |}).
Proof.
  vm_compute. repeat split; discriminate.
Qed.


(** C10 at a call that is restarted although its allowance is spent. *)
Lemma restart_resets_retry_allowance_witness :
  settingsVersion (interfere [ActUpdateSettings S1] (fst (fst (maybeLogin fresh_client))))
  <> settingsVersion fresh_client
  /\ wrappedFunction "SYNO.API.Auth" login_ok unit nat fn_ok "Task"
       [[ActUpdateSettings S1]; []; []] fresh_client 0 tt false
     = emit (EvEnter false :: snd (fst (maybeLogin fresh_client)))
         (wrappedFunction "SYNO.API.Auth" login_ok unit nat fn_ok "Task"
            [[]; []]
            (interfere [ActUpdateSettings S1] (fst (fst (maybeLogin fresh_client))))
            0 tt true).
Proof.
  assert (HV : settingsVersion
                 (interfere [ActUpdateSettings S1]
                            (fst (fst (maybeLogin fresh_client))))
               <> settingsVersion fresh_client) by (vm_compute; discriminate).
  split; [exact HV|].
  destruct restart_resets_retry_allowance as [Hall _].
  destruct (Hall "SYNO.API.Auth"%string login_ok unit nat fn_ok "Task"%string tt
                 [[ActUpdateSettings S1]; []; []] fresh_client 0 false)
    as (Hrestart & _).
  exact (Hrestart [ActUpdateSettings S1] [[]; []] eq_refl HV).
Defined.

(** C8 at an update that repeats the stored settings. *)
Lemma updateSettings_unchanged_is_noop_witness :
  baseUrl_opt S0 = baseUrl_opt (settings logged_client)
  /\ updateSettings S0 logged_client = (false, logged_client, None)
  /\ updateSettings_trace "SYNO.API.Auth" login_ok logout_ok [[]; []] S0 logged_client
     = [].
Proof.
  destruct (updateSettings_unchanged_is_noop
              "SYNO.API.Auth" login_ok logout_ok [[]; []] S0 logged_client
              eq_refl eq_refl eq_refl eq_refl)
    as (Hsame & _ & _ & _ & Htrace).
  split; [reflexivity|]. split; assumption.
Defined.

(** C3 at a change of [baseUrl] while a login is cached. *)
Lemma updateSettings_changed_invalidates_session_witness :
  baseUrl_opt S1 <> baseUrl_opt (settings logged_client)
  /\ loginPromise logged_client = Some P0
  /\ fst (fst (updateSettings S1 logged_client)) = true
  /\ settingsVersion (snd (fst (updateSettings S1 logged_client)))
     = settingsVersion logged_client + 1
  /\ loginPromise (snd (fst (updateSettings S1 logged_client))) = None.
Proof.
  assert (Hdiff : baseUrl_opt S1 <> baseUrl_opt (settings logged_client))
    by (vm_compute; discriminate).
  destruct (updateSettings_changed_invalidates_session
              "SYNO.API.Auth"%string login_ok unit nat fn_ok "Task"%string tt S1
              logged_client
              (or_introl Hdiff))
    as (Htrue & Hversion & _ & Hcleared & _).
  split; [exact Hdiff|]. split; [reflexivity|]. repeat split; assumption.
Defined.

(** C2 at two further login calls around a subscription. *)
Lemma login_is_single_flight_witness :
  loginPromise logged_client = Some P0
  /\ getValidatedSettings logged_client = Some V0
  /\ maybeLogin (interfere [ActLogin; ActSubscribe 1; ActLogin] logged_client)
     = (interfere [ActLogin; ActSubscribe 1; ActLogin] logged_client, [], Shared P0)
  /\ allocated (interfere [ActLogin; ActSubscribe 1; ActLogin] logged_client) = 1.
Proof.
  destruct (login_is_single_flight
              logged_client P0 V0 [ActLogin; ActSubscribe 1; ActLogin]
              eq_refl eq_refl eq_refl)
    as (Hsame & _ & Halloc & _).
  split; [reflexivity|]. split; [reflexivity|]. split; [exact Hsame|exact Halloc].
Defined.

(** C5 at the scenario "server responds method not supported (code 103)". *)
Lemma login_probes_version_2_then_3_witness :
  getValidatedSettings fresh_client = Some V0
  /\ loginPromise fresh_client = None
  /\ snd (fst (maybeLogin fresh_client)) = [EvAuthLogin 0 V0 2]
  /\ effects (loginChain "SYNO.API.Auth" login_v3_only P0) = [EvAuthLogin 0 V0 3]
  /\ await_login "SYNO.API.Auth" login_v3_only (snd (maybeLogin fresh_client))
     = Fulfils (ClientSuccess {| sid := "sid" |}).
Proof.
  destruct (login_probes_version_2_then_3
              "SYNO.API.Auth" login_v3_only fresh_client V0 eq_refl eq_refl)
    as (Hfirst & _ & _ & Hiff & Hthird & _).
  split; [reflexivity|]. split; [reflexivity|]. split; [exact Hfirst|].
  split; [exact (proj2 Hiff eq_refl)|exact (Hthird eq_refl)].
Defined.

(** C6 at a logout after a successful login. *)
Lemma logout_is_best_effort_witness :
  loginPromise logged_client = Some P0
  /\ trace (maybeLogout "SYNO.API.Auth" login_ok logout_ok [[]; []] logged_client)
     = [EvAuthLogout "http://h" "sid" "S"]
  /\ status (maybeLogout "SYNO.API.Auth" login_ok logout_ok [[]; []] logged_client)
     = Resolved (logout_result (ClientSuccess tt)).
Proof.
  destruct (logout_is_best_effort
              "SYNO.API.Auth" login_ok logout_ok [[]; []] logged_client)
    as (_ & _ & _ & _ & Hvalid & _).
  destruct (Hvalid P0 V0 [] [[]] eq_refl eq_refl eq_refl) as (_ & _ & Hsuccess).
  destruct (Hsuccess {| sid := "sid" |} eq_refl) as (Htrace & Hstatus).
  split; [reflexivity|]. split; [exact Htrace|exact (Hstatus [] [] eq_refl)].
Defined.

(** C6 as stated fails: a login is cached and has resolved to a failure
    response (code 400); [updateSettings] then stores settings with an empty
    [passwd] and starts [maybeLogout], which returns a [missing-config]
    failure, not the result of the login. *)
Lemma logout_counterexample :
  let c' := snd (fst (updateSettings S_empty_passwd logged_client)) in
  let frame := {| stashedLoginPromise := Some P0; validated := None |} in
  loginPromise logged_client = Some P0
  /\ await_login "SYNO.API.Auth" login_refused (Shared P0)
     = Fulfils (ClientFailure {| error_code := 400; apiGroup := "SYNO.API.Auth" |})
  /\ updateSettings S_empty_passwd logged_client = (true, c', Some frame)
  /\ maybeLogout_resume "SYNO.API.Auth" login_refused logout_ok [[]; []] frame c'
     = stop c' (Resolved (logout_result (Connection missing_config)))
  /\ status (maybeLogout_resume "SYNO.API.Auth" login_refused logout_ok [[]; []]
               frame c')
     <> Resolved (logout_result
                    (ClientFailure {| error_code := 400;
                                      apiGroup := "SYNO.API.Auth" |})).
Proof.
  vm_compute. repeat split; discriminate.
Qed.

(** C4 at a failing input: listener 7 is registered on a client holding a
    session, [updateSettings] changes [baseUrl] and returns [true]; all that
    follows is the logout request, and listener 7, still registered, is not
    called. *)
Example updateSettings_notifies_nobody :
  let c := fst (onSettingsChange 7 logged_client) in
  In 7 (onSettingsChangeListeners c)
  /\ fst (fst (updateSettings S1 c)) = true
  /\ In 7 (onSettingsChangeListeners (snd (fst (updateSettings S1 c))))
  /\ updateSettings_trace "SYNO.API.Auth" login_ok logout_ok [[]; []] S1 c
     = [EvAuthLogout "http://g" "sid" "S"]
  /\ filter is_listener_call
       (updateSettings_trace "SYNO.API.Auth" login_ok logout_ok [[]; []] S1 c)
     = [].
Proof.
  vm_compute. repeat split; auto.
Qed.

(** * Further properties of the client *)

(** ** The version as a fencing token *)

Lemma maybeLogin_keeps_settings c :
  settings (fst (fst (maybeLogin c))) = settings c.
Proof.
  unfold maybeLogin.
  destruct (getValidatedSettings c); [destruct (loginPromise c)|]; reflexivity.
Qed.

Lemma act_fenced a c :
  settingsVersion (act a c) = settingsVersion c ->
  settings (act a c) = settings c.
Proof.
  destruct a; simpl; try reflexivity.
  - unfold updateSettings. destruct (existsb _ _); simpl; [lia|reflexivity].
  - intros _. apply maybeLogin_keeps_settings.
Qed.

Lemma interfere_fenced acts :
  forall c,
    settingsVersion (interfere acts c) = settingsVersion c ->
    settings (interfere acts c) = settings c.
Proof.
  induction acts as [|a acts IH]; intros c H; [reflexivity|].
  change (interfere (a :: acts) c) with (interfere acts (act a c)) in *.
  pose proof (act_version_mono a c) as H1.
  pose proof (interfere_version_mono acts (act a c)) as H2.
  rewrite IH by lia. apply act_fenced. lia.
Qed.

(** X1.  Whatever the tasks sharing a client do, its settings version never
    decreases, and if it is the same afterwards then the stored settings are
    the same too: a task that finds the version it started with works on the
    settings it started with. *)
Theorem version_fences_settings (acts : list Action) (c : SynologyClient) :
  settingsVersion c <= settingsVersion (interfere acts c)
  /\ (settingsVersion (interfere acts c) = settingsVersion c ->
      settings (interfere acts c) = settings c
      /\ getValidatedSettings (interfere acts c) = getValidatedSettings c).
Proof.
  split; [apply interfere_version_mono|].
  intros H. pose proof (interfere_fenced acts c H) as Hs.
  split; [exact Hs|]. unfold getValidatedSettings. now rewrite Hs.
Qed.

(** ** States the client can be in *)

Lemma act_coherent a c : Coherent c -> Coherent (act a c).
Proof.
  intros H. destruct a; simpl.
  - unfold updateSettings. destruct (existsb _ _); [|exact H].
    intros p. simpl. discriminate.
  - unfold maybeLogin.
    destruct (getValidatedSettings c) as [s|] eqn:Es; [|exact H].
    destruct (loginPromise c) as [q|] eqn:Eq; [exact H|].
    intros p. cbn [fst loginPromise allocated]. intros [= <-]. cbn [pid captured].
    split; [lia|]. exact Es.
  - intros p. simpl. discriminate.
  - intros p. simpl. discriminate.
  - exact H.
  - exact H.
Qed.

(** X2.  In every state a client can be in, a cached login promise was
    created earlier and from the settings that are valid now: no state holds
    a login for settings that have since been replaced or are incomplete. *)
Theorem reachable_login_matches_settings (c : SynologyClient) :
  Reachable c -> Coherent c.
Proof.
  induction 1 as [s|a c _ IH].
  - intros p. simpl. discriminate.
  - now apply act_coherent.
Qed.

(** ** Validated settings *)

Lemma nonEmpty_spec x : nonEmpty (Some x) = true <-> x <> ""%string.
Proof.
  destruct x; simpl; split; intros H; try congruence; try reflexivity.
  now elim H.
Qed.

(** X3.  [getValidatedSettings] gives settings exactly when the stored value
    has all four fields and none is the empty string, and it gives those four
    strings back: a missing or empty [baseUrl], [account], [passwd] or
    [session] makes the settings invalid. *)
Theorem validated_settings_are_complete
    (c : SynologyClient) (v : SynologyClientSettings) :
  getValidatedSettings c = Some v
  <-> settings c = complete v
      /\ baseUrl v <> ""%string /\ account v <> ""%string
      /\ passwd v <> ""%string /\ session v <> ""%string.
Proof.
  unfold getValidatedSettings, complete. destruct (settings c) as [b a p s].
  cbn [forallb SETTING_NAME_KEYS field baseUrl_opt account_opt passwd_opt session_opt].
  split.
  - destruct b as [b|], a as [a|], p as [p|], s as [s|];
      try (destruct (_ && _); discriminate);
      try (rewrite ?andb_false_r; simpl; discriminate).
    destruct (nonEmpty (Some b)) eqn:Eb; [|discriminate].
    destruct (nonEmpty (Some a)) eqn:Ea; [|discriminate].
    destruct (nonEmpty (Some p)) eqn:Ep; [|discriminate].
    destruct (nonEmpty (Some s)) eqn:Es; [|discriminate].
    cbn [andb]. intros [= <-]. cbn [baseUrl account passwd session].
    repeat split; now apply nonEmpty_spec.
  - intros ([= -> -> -> ->] & Hb & Ha & Hp & Hs).
    apply nonEmpty_spec in Hb, Ha, Hp, Hs. rewrite Hb, Ha, Hp, Hs.
    destruct v; reflexivity.
Qed.

Section MoreProofs.

Variable Auth_API_NAME : string.
Variable Auth_Login :
  nat -> SynologyClientSettings -> Z -> Settled (RestApiResponse AuthLoginResponse).
Variables T U : Type.
Variable fn : option string -> string -> T -> nat -> Called (RestApiResponse U).
Variable group : string.
Variable options : T.

Local Abbreviation wrapped := (wrappedFunction Auth_API_NAME Auth_Login T U fn group).
Local Abbreviation awaitLogin := (await_login Auth_API_NAME Auth_Login).
Local Abbreviation chain := (loginChain Auth_API_NAME Auth_Login).
Local Abbreviation retryOr := (maybeLogoutAndRetry U group).
Local Abbreviation c1of c := (fst (fst (maybeLogin c))).
Local Abbreviation reqs c := (snd (fst (maybeLogin c))).
Local Abbreviation hof c := (snd (maybeLogin c)).
Local Abbreviation clear c := (set_loginPromise None c).

(** ** A proxied call without valid settings *)

Lemma maybeLogin_invalid c :
  getValidatedSettings c = None -> maybeLogin c = (c, [], Immediate missing_config).
Proof. unfold maybeLogin. now intros ->. Qed.

Lemma stable_validated acts c :
  VersionStable acts ->
  getValidatedSettings (interfere acts c) = getValidatedSettings c.
Proof.
  intros H. unfold getValidatedSettings.
  now rewrite (interfere_fenced acts c (H c)).
Qed.

(** X4.  A proxied call made while the settings are incomplete, and during
    which they do not change, makes no request and does not invoke the
    endpoint function: it tries twice (the [missing-config] failure counts as
    a routine one) and returns the [missing-config] connection failure. *)
Theorem call_without_settings_is_refused
    (i1 i2 : list Action) (rest : list (list Action)) (c : SynologyClient)
    (n : nat) :
  VersionStable i1 -> VersionStable i2 ->
  getValidatedSettings c = None ->
  wrapped (i1 :: i2 :: rest) c n options true =
  {| trace := [EvEnter true; EvEnter false];
     final := interfere i2 (clear (interfere i1 c));
     status := Resolved (Connection missing_config) |}.
Proof.
  intros H1 H2 Hc.
  assert (Hc2 : getValidatedSettings (clear (interfere i1 c)) = None).
  { change (getValidatedSettings (clear (interfere i1 c)))
      with (getValidatedSettings (interfere i1 c)).
    now rewrite stable_validated. }
  rewrite (retried_login_failure Auth_API_NAME Auth_Login T U fn group options
             i1 (i2 :: rest) c n (Connection missing_config) (inl missing_config));
    try assumption; try reflexivity;
    [|now rewrite (maybeLogin_invalid c Hc)].
  rewrite (surfaced_login_failure Auth_API_NAME Auth_Login T U fn group options
             i2 rest _ n false (Connection missing_config) (inl missing_config));
    try assumption; try reflexivity;
    rewrite (maybeLogin_invalid c Hc); cbn [fst snd];
    [|now rewrite (maybeLogin_invalid _ Hc2)].
  rewrite (maybeLogin_invalid _ Hc2). reflexivity.
Qed.

(** ** A proxied call that reaches the endpoint *)

Lemma validated_complete c v :
  getValidatedSettings c = Some v -> settings c = complete v.
Proof.
  unfold getValidatedSettings, complete. destruct (forallb _ _); [|discriminate].
  destruct (settings c) as [[b|] [a|] [p|] [s|]]; try discriminate.
  now intros [= <-].
Qed.

Lemma success_returned i1 i2 rest c n b data d :
  VersionStable i1 -> VersionStable i2 ->
  awaitLogin (hof c) = Fulfils (ClientSuccess data) ->
  fn (baseUrl_opt (settings (interfere i1 (c1of c)))) (sid data) options n
    = Returns (Fulfils (RestSuccess d)) ->
  wrapped (i1 :: i2 :: rest) c n options b =
  emit (EvEnter b :: reqs c ++
          [EvFn (baseUrl_opt (settings (interfere i1 (c1of c)))) (sid data)
                (login_of (hof c))])
       (stop (interfere i2 (interfere i1 (c1of c))) (Resolved (ClientSuccess d))).
Proof.
  intros H1 H2 HL HF.
  rewrite (wrapped_cons Auth_API_NAME Auth_Login T U fn group options). cbv zeta.
  rewrite HL, checkpoint1 by assumption. rewrite HF.
  rewrite checkpoint2 by assumption.
  now rewrite emit_emit.
Qed.

Lemma stable_baseUrl acts c v :
  VersionStable acts -> getValidatedSettings c = Some v ->
  baseUrl_opt (settings (interfere acts c)) = Some (baseUrl v).
Proof.
  intros H Hv. rewrite (interfere_fenced acts c (H c)).
  now rewrite (validated_complete c v Hv).
Qed.

(** X5.  A proxied call made while a successful login is cached, and during
    which the settings do not change, makes no login request: it invokes the
    endpoint function once, with the current base URL and the cached session
    id, and returns the endpoint's success response as it is.  The call
    itself leaves the client as the other tasks left it. *)
Theorem call_reuses_cached_session
    (i1 i2 : list Action) (rest : list (list Action)) (c : SynologyClient)
    (n : nat) (b : bool) (p : LoginPromise) (v : SynologyClientSettings)
    (data : AuthLoginResponse) (d : U) :
  VersionStable i1 -> VersionStable i2 ->
  loginPromise c = Some p ->
  getValidatedSettings c = Some v ->
  awaitLogin (Shared p) = Fulfils (ClientSuccess data) ->
  fn (Some (baseUrl v)) (sid data) options n = Returns (Fulfils (RestSuccess d)) ->
  wrapped (i1 :: i2 :: rest) c n options b =
  {| trace := [EvEnter b; EvFn (Some (baseUrl v)) (sid data) (Some (pid p))];
     final := interfere i2 (interfere i1 c);
     status := Resolved (ClientSuccess d) |}.
Proof.
  intros H1 H2 Hp Hv HL HF.
  pose proof (maybeLogin_cached c p v Hp Hv) as Hm.
  rewrite (success_returned i1 i2 rest c n b data d); try assumption;
    rewrite Hm; cbn [fst snd]; rewrite ?(stable_baseUrl i1 c v H1 Hv);
    try assumption.
  reflexivity.
Qed.



(** ** How often a call can invoke the endpoint *)

Lemma count_fn_emit evs (X : Run (ClientRequestResult U)) :
  count_fn (trace (emit evs X)) = count_fn evs + count_fn (trace X).
Proof. unfold emit. cbn [trace]. apply count_fn_app. Qed.

Lemma count_fn_entry b c : count_fn (EvEnter b :: reqs c) = 0.
Proof.
  change (EvEnter b :: reqs c) with ([EvEnter b] ++ reqs c).
  now rewrite count_fn_app, count_fn_reqs.
Qed.

Lemma count_fn_entry_fn b c url s lg :
  count_fn (EvEnter b :: reqs c ++ [EvFn url s lg]) = 1.
Proof.
  change (EvEnter b :: reqs c ++ [EvFn url s lg])
    with ([EvEnter b] ++ reqs c ++ [EvFn url s lg]).
  now rewrite !count_fn_app, count_fn_reqs.
Qed.

Lemma moved_after_login i1 c :
  settingsVersion (interfere i1 (c1of c)) <> settingsVersion c ->
  existsb is_update i1 = true.
Proof.
  intros H. apply (moved_has_update i1 (c1of c)). now rewrite maybeLogin_version.
Qed.

Lemma moved_after_endpoint i1 i2 c :
  settingsVersion (interfere i1 (c1of c)) = settingsVersion c ->
  settingsVersion (interfere i2 (interfere i1 (c1of c))) <> settingsVersion c ->
  existsb is_update i2 = true.
Proof.
  intros H1 H2. apply (moved_has_update i2 (interfere i1 (c1of c))). congruence.
Qed.

(** X7.  One call of a proxied function invokes the endpoint function at most
    twice, plus twice for every suspension during which some task called
    [updateSettings]; an attempt made with the allowance spent accounts for
    one invocation less. *)
Theorem endpoint_invocations_are_bounded (script : list (list Action)) :
  forall (c : SynologyClient) (n : nat) (b : bool),
    count_fn (trace (wrapped script c n options b))
    <= 2 * changes script + (if b then 2 else 1).
Proof.
  induction script as [script IH] using script_ind. intros c n b.
  destruct script as [|i1 rest1].
  { rewrite (wrapped_nil Auth_API_NAME Auth_Login T U fn group options).
    rewrite count_fn_emit, count_fn_entry. cbv [count_fn]. simpl.
    destruct b; lia. }
  assert (Hretry : forall rest c' n' result,
             List.length rest < List.length (i1 :: rest1) ->
             count_fn (trace (retryOr (fun x => wrapped rest x n' options false)
                                      b c' result))
             <= 2 * changes rest + (if b then 1 else 0)).
  { intros rest c' n' result Hlt.
    destruct (retry_or_cases U group
                (fun x => wrapped rest x n' options false) b c' result)
      as [(Hb & _ & ->)| ->].
    - subst b. apply (IH rest Hlt (clear c') n' false).
    - cbv [count_fn]. simpl. lia. }
  rewrite changes_cons.
  apply (wrapped_paths Auth_API_NAME Auth_Login T U fn group options).
  - intros HV. apply moved_after_login in HV. rewrite HV.
    rewrite count_fn_emit, count_fn_entry.
    pose proof (IH rest1 (Nat.lt_succ_diag_r _) (interfere i1 (c1of c)) n true).
    destruct b; cbv iota in *; lia.
  - intros lr result _ _ _.
    rewrite count_fn_emit, count_fn_entry.
    pose proof (Hretry rest1 (interfere i1 (c1of c)) n result
                       (Nat.lt_succ_diag_r _)).
    destruct (existsb is_update i1), b; cbv iota in *; lia.
  - intros data c' st _ _ _ _.
    rewrite count_fn_emit, count_fn_entry_fn. cbv [count_fn]. simpl.
    destruct b; cbv iota in *; lia.
  - intros data i2 rest2 -> _ HV1 HV2.
    apply (moved_after_endpoint i1 i2 c HV1) in HV2.
    rewrite changes_cons, HV2.
    rewrite count_fn_emit, count_fn_entry_fn.
    assert (Hlt : List.length rest2 < List.length (i1 :: i2 :: rest2))
      by (simpl; lia).
    pose proof (IH rest2 Hlt (interfere i2 (interfere i1 (c1of c))) (S n) true).
    destruct b; cbv iota in *; lia.
  - intros data i2 rest2 code -> _ _ _.
    rewrite changes_cons.
    rewrite count_fn_emit, count_fn_entry_fn.
    assert (Hlt : List.length rest2 < List.length (i1 :: i2 :: rest2))
      by (simpl; lia).
    pose proof (Hretry rest2 (interfere i2 (interfere i1 (c1of c))) (S n)
                       (inr code) Hlt).
    destruct (existsb is_update i1), (existsb is_update i2), b; cbv iota in *; lia.
Qed.

(** ** What a proxied call never does *)

Lemma quiet_reqs c : forallb quiet (reqs c) = true.
Proof.
  unfold maybeLogin.
  destruct (getValidatedSettings c); [destruct (loginPromise c)|]; reflexivity.
Qed.

Lemma quiet_emit evs (X : Run (ClientRequestResult U)) :
  forallb quiet evs = true -> forallb quiet (trace X) = true ->
  forallb quiet (trace (emit evs X)) = true.
Proof. intros H1 H2. unfold emit. cbn [trace]. now rewrite forallb_app, H1, H2. Qed.

Lemma quiet_entry b c : forallb quiet (EvEnter b :: reqs c) = true.
Proof. simpl. apply quiet_reqs. Qed.

Lemma quiet_entry_fn b c url s lg :
  forallb quiet (EvEnter b :: reqs c ++ [EvFn url s lg]) = true.
Proof. simpl. now rewrite forallb_app, quiet_reqs. Qed.

(** X8.  A proxied call never sends a logout request and never calls a
    listener, whatever happens: when it drops a session to retry
    ([maybeLogoutAndRetry]) it only forgets the cached promise. *)
Theorem proxied_call_never_logs_out (script : list (list Action)) :
  forall (c : SynologyClient) (n : nat) (b : bool),
    forallb quiet (trace (wrapped script c n options b)) = true.
Proof.
  induction script as [script IH] using script_ind. intros c n b.
  destruct script as [|i1 rest1].
  { rewrite (wrapped_nil Auth_API_NAME Auth_Login T U fn group options).
    apply quiet_emit; [apply quiet_entry|reflexivity]. }
  assert (Hretry : forall rest c' n' result,
             List.length rest < List.length (i1 :: rest1) ->
             forallb quiet
               (trace (retryOr (fun x => wrapped rest x n' options false)
                               b c' result)) = true).
  { intros rest c' n' result Hlt.
    destruct (retry_or_cases U group
                (fun x => wrapped rest x n' options false) b c' result)
      as [(Hb & _ & ->)| ->]; [|reflexivity].
    now apply IH. }
  apply (wrapped_paths Auth_API_NAME Auth_Login T U fn group options).
  - intros _. apply quiet_emit; [apply quiet_entry|]. apply IH. simpl. lia.
  - intros lr result _ _ _. apply quiet_emit; [apply quiet_entry|].
    apply Hretry. simpl. lia.
  - intros data c' st _ _ _ _. apply quiet_emit; [apply quiet_entry_fn|reflexivity].
  - intros data i2 rest2 -> _ _ _. apply quiet_emit; [apply quiet_entry_fn|].
    apply IH. simpl. lia.
  - intros data i2 rest2 code -> _ _ _. apply quiet_emit; [apply quiet_entry_fn|].
    apply Hretry. simpl. lia.
Qed.

End MoreProofs.

(** ** More on logging out *)

Lemma from_not_missing_config e : ConnectionFailure_from e <> missing_config.
Proof.
  destruct e as [status| | |m]; simpl; try discriminate.
  destruct (status =? 400)%Z; discriminate.
Qed.

Section MoreLogoutProofs.

Variable Auth_API_NAME : string.
Variable Auth_Login :
  nat -> SynologyClientSettings -> Z -> Settled (RestApiResponse AuthLoginResponse).
Variable Auth_Logout :
  string -> string -> string -> Settled (RestApiResponse unit).

Local Abbreviation awaitLogin := (await_login Auth_API_NAME Auth_Login).
Local Abbreviation chain := (loginChain Auth_API_NAME Auth_Login).
Local Abbreviation logout := (maybeLogout Auth_API_NAME Auth_Login Auth_Logout).
Local Abbreviation clear c := (set_loginPromise None c).

Lemma chain_not_missing_config p :
  settled (chain p) <> Fulfils (Connection missing_config).
Proof.
  unfold loginChain, catch_, then_value, then_. simpl.
  destruct (Auth_Login (pid p) (captured p) 2) as [[d|code]|e]; simpl;
    try discriminate.
  - destruct (code =? NO_SUCH_METHOD_ERROR_CODE)%Z; simpl; [|discriminate].
    destruct (Auth_Login (pid p) (captured p) 3) as [[d|code']|e]; simpl;
      try discriminate.
    intros [= H]. now apply from_not_missing_config in H.
  - intros [= H]. now apply from_not_missing_config in H.
Qed.

(** X9.  On a client in a state it can be in, the logout operation never
    answers [missing-config]: with a login cached the settings are valid, so
    the stashed login is awaited, and neither its result nor a logout
    response is that failure. *)
Theorem logout_never_reports_missing_config
    (script : list (list Action)) (c : SynologyClient) :
  Reachable c ->
  status (logout script c) <> Resolved (logout_result (Connection missing_config)).
Proof.
  intros HR.
  assert (HC : Coherent c).
  { clear script. induction HR as [s|a c _ IH].
    - intros p. simpl. discriminate.
    - now apply act_coherent. }
  unfold maybeLogout, maybeLogout_begin, maybeLogout_resume.
  cbn [stashedLoginPromise validated].
  destruct (loginPromise c) as [p|] eqn:Ep; [|simpl; discriminate].
  destruct (HC p Ep) as [_ Hv]. rewrite Hv.
  destruct script as [|i1 rest]; [simpl; discriminate|].
  pose proof (chain_not_missing_config p) as Hchain.
  destruct (settled (chain p)) as [[data|f|f]|e]; try (simpl; discriminate).
  - destruct rest as [|i2 rest2]; [simpl; discriminate|].
    destruct (Auth_Logout _ _ _) as [[d|code]|e]; simpl; try discriminate.
    intros [= H]. now apply from_not_missing_config in H.
  - simpl. intros [= ->]. now apply Hchain.
Qed.

(** X10.  The logout that [updateSettings] starts reads the settings after
    they were replaced.  With a successful login cached and new settings that
    are valid, the one logout request goes to the new base URL and session
    name, with the session id obtained under the old settings; with new
    settings that are not valid no logout request is made at all. *)
Theorem settings_change_logs_out_with_new_settings
    (s : PartialSettings) (c : SynologyClient) (p : LoginPromise)
    (data : AuthLoginResponse) :
  fst (fst (updateSettings s c)) = true ->
  loginPromise c = Some p ->
  awaitLogin (Shared p) = Fulfils (ClientSuccess data) ->
  (forall v' i1 rest,
      getValidatedSettings (new_SynologyClient s) = Some v' ->
      updateSettings_trace Auth_API_NAME Auth_Login Auth_Logout (i1 :: rest) s c
      = [EvAuthLogout (baseUrl v') (sid data) (session v')])
  /\ (forall script,
        getValidatedSettings (new_SynologyClient s) = None ->
        updateSettings_trace Auth_API_NAME Auth_Login Auth_Logout script s c = []).
Proof.
  intros Heff Hp HL. simpl in HL.
  unfold updateSettings_trace. revert Heff. unfold updateSettings.
  destruct (existsb _ _); [intros _|discriminate].
  cbn [maybeLogout_begin fst snd]. unfold maybeLogout_resume.
  cbn [stashedLoginPromise validated loginPromise]. rewrite Hp.
  split.
  - intros v' i1 rest Hv.
    change (getValidatedSettings
              {| loginPromise := Some p;
                 settingsVersion := S (settingsVersion c);
                 onSettingsChangeListeners := onSettingsChangeListeners c;
                 settings := s;
                 allocated := allocated c |})
      with (getValidatedSettings (new_SynologyClient s)).
    rewrite Hv, HL. destruct rest; [reflexivity|].
    destruct (Auth_Logout _ _ _); reflexivity.
  - intros script Hv.
    change (getValidatedSettings
              {| loginPromise := Some p;
                 settingsVersion := S (settingsVersion c);
                 onSettingsChangeListeners := onSettingsChangeListeners c;
                 settings := s;
                 allocated := allocated c |})
      with (getValidatedSettings (new_SynologyClient s)).
    rewrite Hv. reflexivity.
Qed.

(** X11.  After a logout during which no other task touched the client,
    however far the logout has got and whatever the server answered to it,
    the next login call on valid settings logs in afresh: it makes the
    version-2 request for a newly created promise and caches it. *)
Theorem logout_then_login_starts_afresh
    (script : list (list Action)) (c : SynologyClient)
    (v : SynologyClientSettings) :
  Forall (fun acts => acts = []) script ->
  getValidatedSettings c = Some v ->
  maybeLogin (final (logout script c)) =
  ({| loginPromise := Some {| pid := allocated c; captured := v |};
      settingsVersion := settingsVersion c;
      onSettingsChangeListeners := onSettingsChangeListeners c;
      settings := settings c;
      allocated := S (allocated c) |},
   [EvAuthLogin (allocated c) v 2],
   Shared {| pid := allocated c; captured := v |}).
Proof.
  intros Hscript Hv.
  assert (E : final (logout script c) = clear c).
  { unfold maybeLogout, maybeLogout_begin, maybeLogout_resume.
    cbn [stashedLoginPromise validated].
    destruct (loginPromise c) as [p|]; [rewrite Hv|reflexivity].
    destruct Hscript as [|i1 rest -> Hrest]; [reflexivity|].
    destruct (settled (chain p)) as [[data|f|f]|e]; try reflexivity.
    destruct Hrest as [|i2 rest2 -> _]; [reflexivity|].
    destruct (Auth_Logout _ _ _); reflexivity. }
  rewrite E. unfold maybeLogin.
  change (getValidatedSettings (clear c)) with (getValidatedSettings c).
  rewrite Hv. reflexivity.
Qed.

End MoreLogoutProofs.

(** ** The unauthenticated proxy *)

Section PlainProxyProofs.

Variables T U : Type.
Variable fn : string -> T -> Called (RestApiResponse U).
Variable group : string.

Local Abbreviation plain := (proxyWithoutAuth T U fn group).

(** X12.  A call through the unauthenticated proxy never rejects and invokes
    the wrapped function at most once.  Without valid settings it answers
    [missing-config] at once and invokes nothing.  It never writes to the
    client: the state it leaves is the one it found, changed only by the
    other tasks during its single suspension, after which it is settled. *)
Theorem plain_call_is_single_shot
    (script : list (list Action)) (c : SynologyClient) (options : T) :
  (forall e, settlement (plain script c options) <> Rejected e)
  /\ List.length (invoked (plain script c options)) <= 1
  /\ (getValidatedSettings c = None ->
      plain script c options =
      {| invoked := []; left := c;
         settlement := Resolved (Connection missing_config) |})
  /\ (left (plain script c options) = c
      \/ exists i1 rest,
           script = i1 :: rest /\ left (plain script c options) = interfere i1 c)
  /\ (script <> [] -> settlement (plain script c options) <> Pending).
Proof.
  unfold proxyWithoutAuth.
  destruct (getValidatedSettings c) as [v|].
  - destruct (fn (baseUrl v) options) as [e|p]; cbn [invoked left settlement fst snd].
    + repeat split; try discriminate; auto.
    + destruct script as [|i1 rest]; cbn [fst snd].
      * repeat split; try discriminate; auto.
      * destruct p as [[d|code]|e]; cbn [fst snd];
          (split; [discriminate|]); (split; [simpl; lia|]);
          (split; [discriminate|]); (split; [right; eauto|discriminate]).
  - cbn [invoked left settlement].
    repeat split; try discriminate; auto.
Qed.

(** X13.  With valid settings the unauthenticated proxy invokes the wrapped
    function with the validated base URL and returns what it got: a success
    as it is, a failure of any code (106 and 105 included) tagged with the
    group, a thrown error classified.  Nothing is retried, and the result is
    returned even if the settings were changed during the call. *)
Theorem plain_call_returns_first_answer
    (i1 : list Action) (rest : list (list Action)) (c : SynologyClient)
    (options : T) (v : SynologyClientSettings) :
  getValidatedSettings c = Some v ->
  invoked (plain (i1 :: rest) c options) = [baseUrl v]
  /\ (forall response,
        fn (baseUrl v) options = Returns (Fulfils response) ->
        settlement (plain (i1 :: rest) c options)
        = Resolved (ClientRequestResult_from response group))
  /\ (forall e,
        fn (baseUrl v) options = ThrowsNow e
        \/ fn (baseUrl v) options = Returns (Rejects e) ->
        settlement (plain (i1 :: rest) c options)
        = Resolved (Connection (ConnectionFailure_from e))).
Proof.
  intros Hv. unfold proxyWithoutAuth. rewrite Hv. cbn [invoked settlement].
  split; [reflexivity|]. split.
  - intros response ->. now destruct response.
  - intros e [-> | ->]; reflexivity.
Qed.

End PlainProxyProofs.

(** ** Subscriptions *)

Lemma filter_registered_last (l : Listener) (c : SynologyClient) :
  ~ In l (onSettingsChangeListeners c) ->
  filter (fun l0 : nat => negb (l0 =? l)) (onSettingsChangeListeners c ++ [l])
  = onSettingsChangeListeners c.
Proof.
  generalize (onSettingsChangeListeners c) as ls.
  induction ls as [|x ls IH]; simpl; intros H.
  - now rewrite Nat.eqb_refl.
  - destruct (x =? l) eqn:E.
    + apply Nat.eqb_eq in E. subst. tauto.
    + simpl. rewrite IH by tauto. reflexivity.
Qed.

(** X14.  Calling the function returned by [onSettingsChange] for the first
    time removes every registration of its listener, also those made through
    other subscriptions, keeps the other listeners with their multiplicity,
    and touches nothing else of the client. *)
Theorem unsubscribe_removes_every_registration
    (sub : Subscription) (c : SynologyClient) :
  isSubscribed sub = true ->
  let c' := fst (unsubscribe sub c) in
  ~ In (sub_listener sub) (onSettingsChangeListeners c')
  /\ (forall l, l <> sub_listener sub ->
        count_occ Nat.eq_dec (onSettingsChangeListeners c') l
        = count_occ Nat.eq_dec (onSettingsChangeListeners c) l)
  /\ isSubscribed (snd (unsubscribe sub c)) = false
  /\ settings c' = settings c
  /\ settingsVersion c' = settingsVersion c
  /\ loginPromise c' = loginPromise c.
Proof.
  intros H c'. subst c'. unfold unsubscribe. rewrite H. cbn [fst snd].
  cbn [onSettingsChangeListeners set_listeners isSubscribed].
  split.
  { intros Hin. apply filter_In in Hin. destruct Hin as [_ Hne].
    rewrite Nat.eqb_refl in Hne. discriminate. }
  split; [|repeat split].
  intros l Hl. induction (onSettingsChangeListeners c) as [|x ls IH];
    [reflexivity|]. simpl.
  destruct (x =? sub_listener sub) eqn:E; simpl.
  - apply Nat.eqb_eq in E. destruct (Nat.eq_dec x l); [congruence|exact IH].
  - destruct (Nat.eq_dec x l); [now rewrite IH|exact IH].
Qed.

(** X15.  Once the function returned by [onSettingsChange] has been called,
    calling it again does nothing, on any later state of the client: in
    particular it does not remove a registration of the same listener made in
    between. *)
Theorem spent_unsubscribe_does_nothing
    (sub : Subscription) (c later : SynologyClient) :
  unsubscribe (snd (unsubscribe sub c)) later = (later, snd (unsubscribe sub c)).
Proof.
  unfold unsubscribe at 2 3.
  destruct (isSubscribed sub) eqn:E; cbn [snd]; unfold unsubscribe;
    cbn [isSubscribed]; rewrite ?E; reflexivity.
Qed.

(** X16.  Subscribing a listener that is not registered yet and calling the
    returned function gives back the client exactly as it was. *)
Theorem subscribe_unsubscribe_round_trip (l : Listener) (c : SynologyClient) :
  ~ In l (onSettingsChangeListeners c) ->
  fst (unsubscribe (snd (onSettingsChange l c)) (fst (onSettingsChange l c))) = c.
Proof.
  intros H. unfold onSettingsChange, unsubscribe.
  cbn [fst snd isSubscribed sub_listener set_listeners onSettingsChangeListeners].
  rewrite (filter_registered_last l c H). destruct c; reflexivity.
Qed.

(** * Properties of the popup *)

Section PopupViewProofs.

Variable DownloadStationTask : Type.
Variable title : DownloadStationTask -> string.
Variable matchesFilter : DownloadStationTask -> FilterName -> bool.
Variable sortBy :
  list DownloadStationTask -> (DownloadStationTask -> string) ->
  list DownloadStationTask.
Variable fromNow : Z -> string.
Variable format_ll_LTS : Z -> string.

Local Abbreviation Props := (PopupProps DownloadStationTask).
Local Abbreviation body := (renderBody DownloadStationTask title matchesFilter sortBy).
Local Abbreviation header := (renderHeader DownloadStationTask fromNow format_ll_LTS).
Local Abbreviation visible := (shown DownloadStationTask matchesFilter).



(** X18.  The header shows the spinning icon exactly when no fetch has
    completed yet or a fetch was started after the last completed one.  It
    reads "Error loading tasks", with the error class, exactly when a fetch
    has completed and a failure message is stored, also while the next fetch
    is running; before the first completed fetch a stored failure message is
    not shown. *)
Theorem header_shows_progress_and_failure (props : Props) (state : PopupState) :
  (icon (header props state) = "fa-refresh fa-spin"%string
   <-> tasksLastCompletedFetchTimestamp _ props = None
       \/ exists initiated completed_,
            tasksLastInitiatedFetchTimestamp _ props = Some initiated
            /\ tasksLastCompletedFetchTimestamp _ props = Some completed_
            /\ (completed_ < initiated)%Z)
  /\ (text (header props state) = "Error loading tasks"%string
      <-> tasksLastCompletedFetchTimestamp _ props <> None
          /\ tasksFetchFailureMessage _ props <> None)
  /\ (text (header props state) = "Error loading tasks"%string ->
      classes (header props state) = Some "error-message"%string)
  /\ (tasksLastCompletedFetchTimestamp _ props = None ->
      text (header props state) = "Loading..."%string
      /\ tooltip (header props state) = "Loading download tasks..."%string).
Proof.
  unfold renderHeader.
  destruct (tasksLastCompletedFetchTimestamp _ props) as [c|];
    destruct (tasksFetchFailureMessage _ props) as [m|];
    destruct (tasksLastInitiatedFetchTimestamp _ props) as [i|];
    cbn [text tooltip classes icon];
    try destruct (Z.ltb_spec c i);
    repeat split; intros; try discriminate; try congruence; auto;
    try (right; eauto; fail);
    try match goal with
        | H : _ \/ _ |- _ =>
            destruct H as [H|(i' & c' & Hi & Hc & Hlt)];
              [discriminate|try discriminate; injection Hi as <-;
                            injection Hc as <-; lia]
        | H : _ /\ _ |- _ => destruct H as [H1 H2]; congruence
        end.
Qed.

End PopupViewProofs.

Section PopupCallbackProofs.

Variable Task_Pause : list string -> Settled (RestApiResponse unit).
Variable Task_Resume : list string -> Settled (RestApiResponse unit).
Variable Task_Delete : list string -> bool -> Settled (RestApiResponse unit).
Variable pollTasks : Settled unit.
Variable addDownloadTask : string -> Settled unit.
Variable errorMessageFromCode : Z -> string -> string.
Variable Task_API_NAME : string.

Local Abbreviation convert := (convertResponse errorMessageFromCode Task_API_NAME).
Local Abbreviation reload := (reloadOnSuccess pollTasks).
Local Abbreviation made :=
  (make_callbacks Task_Pause Task_Resume Task_Delete pollTasks addDownloadTask
                  errorMessageFromCode Task_API_NAME).

(** The chain [.then(convertResponse).then(reloadOnSuccess)] behind an action
    button, for the request event [ev] and the way [api] its promise
    settles. *)
Lemma action_chain (ev : PopupEvent) (api : Settled (RestApiResponse unit)) :
  let job := job_then (job_then {| did := [ev]; outcome := api |} convert) reload in
  did job
  = ev :: match api with
          | Fulfils (RestSuccess _) => [CallPollTasks]
          | Fulfils (RestFailure code) =>
              [ConsoleError
                 (String.append "API call failed, reason: "
                    (errorMessageFromCode code Task_API_NAME))]
          | Rejects _ => []
          end
  /\ outcome job
     = match api with
       | Fulfils (RestSuccess _) =>
           match pollTasks with
           | Fulfils _ => Fulfils success
           | Rejects e => Rejects e
           end
       | Fulfils (RestFailure code) =>
           Fulfils (failMessage (errorMessageFromCode code Task_API_NAME))
       | Rejects e => Rejects e
       end.
Proof.
  intros job. subst job. unfold job_then, convertResponse, reloadOnSuccess, job_value.
  cbn [did outcome].
  destruct api as [[d|code]|e]; cbn [did outcome app]; [|split; reflexivity..].
  unfold job_then. cbn [did outcome].
  destruct pollTasks as [u|e]; cbn [did outcome app]; split; reflexivity.
Qed.

(** X19.  Pausing, resuming or deleting a task from the popup does exactly
    this: the one corresponding request for that task id (a deletion with
    [force_complete] false); then, if the request fulfilled with a success,
    one reload of the tasks, and if it fulfilled with a failure, one console
    error; nothing else.  The tasks are thus reloaded exactly when the request
    succeeded.  The callback answers [success] when the reload fulfilled too,
    the message [errorMessageFromCode] gives for the code of a failure
    response, and passes on a rejection of the request, or of the reload
    after a success. *)
Theorem action_reloads_exactly_on_success
    (hostUrl : option string) (taskId : string) :
  truthy hostUrl = true ->
  exists pauseResume delete,
    pauseResumeTask (made hostUrl) = Some pauseResume
    /\ deleteTask (made hostUrl) = Some delete
    /\ forall (ev : PopupEvent) (api : Settled (RestApiResponse unit))
              (job : Job CallbackResponse),
        (ev = CallPause [taskId] /\ api = Task_Pause [taskId]
         /\ job = pauseResume taskId pause)
        \/ (ev = CallResume [taskId] /\ api = Task_Resume [taskId]
            /\ job = pauseResume taskId resume)
        \/ (ev = CallDelete [taskId] false /\ api = Task_Delete [taskId] false
            /\ job = delete taskId) ->
        did job
        = ev :: match api with
                | Fulfils (RestSuccess _) => [CallPollTasks]
                | Fulfils (RestFailure code) =>
                    [ConsoleError
                       (String.append "API call failed, reason: "
                          (errorMessageFromCode code Task_API_NAME))]
                | Rejects _ => []
                end
        /\ outcome job
           = match api with
             | Fulfils (RestSuccess _) =>
                 match pollTasks with
                 | Fulfils _ => Fulfils success
                 | Rejects e => Rejects e
                 end
             | Fulfils (RestFailure code) =>
                 Fulfils (failMessage (errorMessageFromCode code Task_API_NAME))
             | Rejects e => Rejects e
             end
        /\ (In CallPollTasks (did job) <-> exists d, api = Fulfils (RestSuccess d)).
Proof.
  intros Hhost. unfold make_callbacks. rewrite Hhost.
  cbn [pauseResumeTask deleteTask].
  eexists. eexists. split; [reflexivity|]. split; [reflexivity|].
  intros ev api job Hcase.
  assert (Hjob : job = job_then (job_then {| did := [ev]; outcome := api |} convert)
                                reload
                 /\ ev <> CallPollTasks).
  { destruct Hcase as [(-> & -> & ->)|[(-> & -> & ->)|(-> & -> & ->)]];
      (split; [reflexivity|discriminate]). }
  destruct Hjob as [-> Hev].
  destruct (action_chain ev api) as (Hdid & Hout).
  split; [exact Hdid|]. split; [exact Hout|].
  rewrite Hdid. destruct api as [[d|code]|e]; cbn [In]; split.
  - intros _. now exists d.
  - intros _. right. now left.
  - intros [H|[H|[]]]; [now elim Hev|discriminate].
  - intros [d H]. discriminate.
  - intros [H|[]]. now elim Hev.
  - intros [d H]. discriminate.
Qed.

(** X20.  Adding a download from the popup reloads the tasks exactly when the
    task was added, and does not wait for that reload: its promise fulfils as
    soon as the task is added, however the reload ends, and rejects only if
    adding the task does. *)
Theorem adding_reloads_without_waiting (hostUrl : option string) (url : string) :
  truthy hostUrl = true ->
  exists create,
    createTask (made hostUrl) = Some create
    /\ did (create url)
       = CallAddDownloadTask url ::
         match addDownloadTask url with
         | Fulfils _ => [CallPollTasks]
         | Rejects _ => []
         end
    /\ outcome (create url)
       = match addDownloadTask url with
         | Fulfils _ => Fulfils tt
         | Rejects e => Rejects e
         end.
Proof.
  intros Hhost. unfold make_callbacks. rewrite Hhost. cbn [createTask].
  eexists. split; [reflexivity|]. unfold job_then. cbn [did outcome].
  destruct (addDownloadTask url); split; reflexivity.
Qed.

End PopupCallbackProofs.

Section PopupWiringProofs.

Variable DownloadStationTask : Type.
Variable title : DownloadStationTask -> string.
Variable matchesFilter : DownloadStationTask -> FilterName -> bool.
Variable sortBy :
  list DownloadStationTask -> (DownloadStationTask -> string) ->
  list DownloadStationTask.
Variable fromNow : Z -> string.
Variable format_ll_LTS : Z -> string.
Variable Task_Pause : list string -> Settled (RestApiResponse unit).
Variable Task_Resume : list string -> Settled (RestApiResponse unit).
Variable Task_Delete : list string -> bool -> Settled (RestApiResponse unit).
Variable pollTasks : Settled unit.
Variable addDownloadTask : string -> Settled unit.
Variable errorMessageFromCode : Z -> string -> string.
Variable Task_API_NAME : string.

Local Abbreviation made :=
  (make_callbacks Task_Pause Task_Resume Task_Delete pollTasks addDownloadTask
                  errorMessageFromCode Task_API_NAME).

(** X21.  Without a host URL (none, or the empty string) the popup gets no
    callbacks: the buttons to add a download and to open the Synology UI are
    disabled, and the listed tasks cannot be paused, resumed or deleted.
    With a host URL both buttons are enabled. *)
Theorem host_url_enables_the_popup
    (hostUrl : option string) (props : PopupProps DownloadStationTask)
    (state : PopupState) :
  callbacks _ props = made hostUrl ->
  let h := renderHeader DownloadStationTask fromNow format_ll_LTS props state in
  add_disabled h = negb (truthy hostUrl)
  /\ open_disabled h = negb (truthy hostUrl)
  /\ (truthy hostUrl = false ->
      forall items item,
        renderBody DownloadStationTask title matchesFilter sortBy props
          = DownloadTasks DownloadStationTask items ->
        In item items ->
        onDelete _ item = None /\ onPauseResume _ item = None).
Proof.
  intros Hcb h. subst h. unfold renderHeader, renderBody. rewrite Hcb.
  unfold make_callbacks.
  destruct (tasksLastCompletedFetchTimestamp _ props) as [ts|];
    destruct (tasksFetchFailureMessage _ props);
    destruct hostUrl as [url|]; cbn [add_disabled open_disabled createTask
      openSynologyUi deleteTask pauseResumeTask];
    try destruct (truthy (Some url)) eqn:E; cbn [truthy negb];
    (split; [reflexivity|]); (split; [reflexivity|]);
    intros Hfalse items item Hbody Hin; try discriminate;
    destruct (List.length (tasks _ props) =? 0); try discriminate;
    destruct (List.length (filter _ _) =? 0); try discriminate;
    injection Hbody as <-; apply in_map_iff in Hin;
    destruct Hin as (t & <- & _); split; reflexivity.
Qed.

End PopupWiringProofs.

(** * The further properties at concrete inputs *)

(** X1 at an update that repeats the stored settings, between two logins. *)
Lemma version_fences_settings_witness :
  settingsVersion (interfere [ActLogin; ActUpdateSettings S0; ActLogout] fresh_client)
  = settingsVersion fresh_client
  /\ settings (interfere [ActLogin; ActUpdateSettings S0; ActLogout] fresh_client)
     = settings fresh_client.
Proof.
  destruct (version_fences_settings
              [ActLogin; ActUpdateSettings S0; ActLogout] fresh_client)
    as [_ Hsame].
  split; [reflexivity|]. exact (proj1 (Hsame eq_refl)).
Defined.

(** X2 at the client after its first login call. *)
Lemma reachable_login_matches_settings_witness :
  Reachable logged_client
  /\ loginPromise logged_client = Some P0
  /\ pid P0 < allocated logged_client
  /\ getValidatedSettings logged_client = Some (captured P0).
Proof.
  assert (HR : Reachable logged_client)
    by exact (reach_act ActLogin fresh_client (reach_new S0)).
  split; [exact HR|]. split; [reflexivity|].
  exact (reachable_login_matches_settings logged_client HR P0 eq_refl).
Defined.

(** X3 at the settings of the scenarios. *)
Lemma validated_settings_are_complete_witness :
  getValidatedSettings fresh_client = Some V0
  /\ settings fresh_client = complete V0
  /\ passwd V0 <> ""%string.
Proof.
  destruct (proj1 (validated_settings_are_complete fresh_client V0) eq_refl)
    as (Hs & _ & _ & Hp & _).
  split; [reflexivity|]. split; assumption.
Defined.

(** X4 at the scenario "settings have an empty password". *)
Lemma call_without_settings_is_refused_witness :
  VersionStable []
  /\ getValidatedSettings (new_SynologyClient S_empty_passwd) = None
  /\ wrappedFunction "SYNO.API.Auth" login_ok unit nat fn_ok "Task"
       [[]; []] (new_SynologyClient S_empty_passwd) 0 tt true
     = {| trace := [EvEnter true; EvEnter false];
          final := new_SynologyClient S_empty_passwd;
          status := Resolved (Connection missing_config) |}.
Proof.
  split; [apply nil_stable|]. split; [reflexivity|].
  exact (call_without_settings_is_refused
           "SYNO.API.Auth" login_ok unit nat fn_ok "Task" tt [] [] []
           (new_SynologyClient S_empty_passwd) 0 nil_stable nil_stable eq_refl).
Defined.

(** X5 at a second call on a client that is logged in. *)
Lemma call_reuses_cached_session_witness :
  loginPromise logged_client = Some P0
  /\ wrappedFunction "SYNO.API.Auth" login_ok unit nat fn_ok "Task"
       [[]; []] logged_client 0 tt true
     = {| trace := [EvEnter true; EvFn (Some "http://h"%string) "sid" (Some 0)];
          final := logged_client;
          status := Resolved (ClientSuccess 0) |}.
Proof.
  split; [reflexivity|].
  exact (call_reuses_cached_session
           "SYNO.API.Auth" login_ok unit nat fn_ok "Task" tt [] [] []
           logged_client 0 true P0 V0 {| sid := "sid" |} 0
           nil_stable nil_stable eq_refl eq_refl eq_refl eq_refl).
Defined.


(** X9 at the client after its first login call. *)
Lemma logout_never_reports_missing_config_witness :
  Reachable logged_client
  /\ status (maybeLogout "SYNO.API.Auth" login_refused logout_ok [[]; []]
               logged_client)
     <> Resolved (logout_result (Connection missing_config)).
Proof.
  assert (HR : Reachable logged_client)
    by exact (reach_act ActLogin fresh_client (reach_new S0)).
  split; [exact HR|].
  exact (logout_never_reports_missing_config
           "SYNO.API.Auth" login_refused logout_ok [[]; []] logged_client HR).
Defined.

(** X10 at a change of [baseUrl] from "http://h" to "http://g". *)
Lemma settings_change_logs_out_with_new_settings_witness :
  fst (fst (updateSettings S1 logged_client)) = true
  /\ baseUrl (captured P0) = "http://h"%string
  /\ updateSettings_trace "SYNO.API.Auth" login_ok logout_ok [[]; []] S1
       logged_client
     = [EvAuthLogout "http://g" "sid" "S"].
Proof.
  destruct (settings_change_logs_out_with_new_settings
              "SYNO.API.Auth" login_ok logout_ok S1 logged_client P0
              {| sid := "sid" |} eq_refl eq_refl eq_refl)
    as [Hvalid _].
  split; [reflexivity|]. split; [reflexivity|].
  exact (Hvalid {| baseUrl := "http://g"; account := "a"; passwd := "p";
                   session := "S" |} [] [[]] eq_refl).
Defined.

(** X11 at a logout that ran to its end. *)
Lemma logout_then_login_starts_afresh_witness :
  Forall (fun acts : list Action => acts = []) [[]; []]
  /\ snd (fst (maybeLogin
                 (final (maybeLogout "SYNO.API.Auth" login_ok logout_ok [[]; []]
                           logged_client))))
     = [EvAuthLogin 1 V0 2].
Proof.
  assert (HS : Forall (fun acts : list Action => acts = []) [[]; []])
    by (repeat constructor).
  split; [exact HS|].
  rewrite (logout_then_login_starts_afresh
             "SYNO.API.Auth" login_ok logout_ok [[]; []] logged_client V0 HS
             eq_refl).
  reflexivity.
Defined.

(** X12 at a capability query without a password. *)
Lemma plain_call_is_single_shot_witness :
  getValidatedSettings (new_SynologyClient S_empty_passwd) = None
  /\ proxyWithoutAuth unit nat Samples.query_refused "Info" [[]]
       (new_SynologyClient S_empty_passwd) tt
     = {| invoked := []; left := new_SynologyClient S_empty_passwd;
          settlement := Resolved (Connection missing_config) |}.
Proof.
  destruct (plain_call_is_single_shot
              unit nat Samples.query_refused "Info" [[]]
              (new_SynologyClient S_empty_passwd) tt)
    as (_ & _ & Hmissing & _).
  split; [reflexivity|]. exact (Hmissing eq_refl).
Defined.

(** X13 at a capability query answered with code 106 while the settings are
    being changed. *)
Lemma plain_call_returns_first_answer_witness :
  getValidatedSettings fresh_client = Some V0
  /\ invoked (proxyWithoutAuth unit nat Samples.query_refused "Info"
                [[ActUpdateSettings S1]] fresh_client tt)
     = ["http://h"%string]
  /\ settlement (proxyWithoutAuth unit nat Samples.query_refused "Info"
                   [[ActUpdateSettings S1]] fresh_client tt)
     = Resolved (ClientFailure {| error_code := 106; apiGroup := "Info" |}).
Proof.
  destruct (plain_call_returns_first_answer
              unit nat Samples.query_refused "Info" [ActUpdateSettings S1] []
              fresh_client tt V0 eq_refl)
    as (Hinvoked & Hanswer & _).
  split; [reflexivity|]. split; [exact Hinvoked|].
  exact (Hanswer (RestFailure 106) eq_refl).
Defined.

(** X14 at a listener registered twice. *)
Lemma unsubscribe_removes_every_registration_witness :
  let c := fst (onSettingsChange 7 (fst (onSettingsChange 7 fresh_client))) in
  let sub := snd (onSettingsChange 7 fresh_client) in
  isSubscribed sub = true
  /\ onSettingsChangeListeners c = [7; 7]
  /\ ~ In 7 (onSettingsChangeListeners (fst (unsubscribe sub c))).
Proof.
  intros c sub.
  destruct (unsubscribe_removes_every_registration sub c eq_refl) as (Hgone & _).
  split; [reflexivity|]. split; [reflexivity|exact Hgone].
Defined.

(** X16 at the first listener of a client. *)
Lemma subscribe_unsubscribe_round_trip_witness :
  ~ In 7 (onSettingsChangeListeners logged_client)
  /\ fst (unsubscribe (snd (onSettingsChange 7 logged_client))
                      (fst (onSettingsChange 7 logged_client)))
     = logged_client.
Proof.
  assert (H : ~ In 7 (onSettingsChangeListeners logged_client))
    by (intros []).
  split; [exact H|]. exact (subscribe_unsubscribe_round_trip 7 logged_client H).
Defined.




(** X18 at a fetch started after the last completed one. *)
Lemma header_shows_progress_and_failure_witness :
  tasksLastInitiatedFetchTimestamp string Samples.props = Some 20%Z
  /\ tasksLastCompletedFetchTimestamp string Samples.props = Some 10%Z
  /\ icon (renderHeader string (fun _ => "a minute ago"%string)
             (fun _ => "Jan 1, 2020"%string) Samples.props
             {| shouldShowDropShadow := false; isAddingDownload := false |})
     = "fa-refresh fa-spin"%string.
Proof.
  destruct (header_shows_progress_and_failure
              string (fun _ => "a minute ago"%string)
              (fun _ => "Jan 1, 2020"%string) Samples.props
              {| shouldShowDropShadow := false; isAddingDownload := false |})
    as (Hicon & _).
  split; [reflexivity|]. split; [reflexivity|].
  apply Hicon. right. exists 20%Z, 10%Z. repeat split.
Defined.

(** X19 at a pause that succeeds while the reload fails, and a resume that is
    refused. *)
Lemma action_reloads_exactly_on_success_witness :
  truthy (Some "http://h"%string) = true
  /\ (exists pauseResume,
        pauseResumeTask Samples.wired = Some pauseResume
        /\ did (pauseResume "t1"%string pause)
           = [CallPause ["t1"%string]; CallPollTasks]
        /\ outcome (pauseResume "t1"%string pause) = Rejects NetworkError
        /\ did (pauseResume "t1"%string resume)
           = [CallResume ["t1"%string];
              ConsoleError "API call failed, reason: Invalid task action"]
        /\ outcome (pauseResume "t1"%string resume)
           = Fulfils (failMessage "Invalid task action"%string)).
Proof.
  split; [reflexivity|].
  destruct (action_reloads_exactly_on_success
              Samples.pause_ok Samples.resume_fails Samples.delete_ok
              (Rejects NetworkError) Samples.add_ok Samples.message_of
              "SYNO.DownloadStation.Task"%string (Some "http://h"%string)
              "t1"%string eq_refl)
    as (pauseResume & delete & Hpr & _ & Hall).
  exists pauseResume. split; [exact Hpr|].
  destruct (Hall (CallPause ["t1"%string]) (Samples.pause_ok ["t1"%string])
                 (pauseResume "t1"%string pause)
                 (or_introl (conj eq_refl (conj eq_refl eq_refl))))
    as (Hdid1 & Hout1 & _).
  destruct (Hall (CallResume ["t1"%string]) (Samples.resume_fails ["t1"%string])
                 (pauseResume "t1"%string resume)
                 (or_intror (or_introl (conj eq_refl (conj eq_refl eq_refl)))))
    as (Hdid2 & Hout2 & _).
  split; [exact Hdid1|]. split; [exact Hout1|].
  split; [exact Hdid2|exact Hout2].
Defined.

(** X20 at a download that is added while the reload fails. *)
Lemma adding_reloads_without_waiting_witness :
  truthy (Some "http://h"%string) = true
  /\ (exists create,
        createTask Samples.wired = Some create
        /\ did (create "http://x/f.iso"%string)
           = [CallAddDownloadTask "http://x/f.iso"%string; CallPollTasks]
        /\ outcome (create "http://x/f.iso"%string) = Fulfils tt).
Proof.
  split; [reflexivity|].
  destruct (adding_reloads_without_waiting
              Samples.pause_ok Samples.resume_fails Samples.delete_ok
              (Rejects NetworkError) Samples.add_ok Samples.message_of
              "SYNO.DownloadStation.Task"%string (Some "http://h"%string)
              "http://x/f.iso"%string eq_refl)
    as (create & Hcreate & Hdid & Hout).
  exists create. split; [exact Hcreate|]. split; [exact Hdid|exact Hout].
Defined.

(** X21 at the host "http://h". *)
Lemma host_url_enables_the_popup_witness :
  callbacks string Samples.props = Samples.wired
  /\ add_disabled
       (renderHeader string (fun _ => "a minute ago"%string)
          (fun _ => "Jan 1, 2020"%string) Samples.props
          {| shouldShowDropShadow := false; isAddingDownload := false |})
     = false.
Proof.
  split; [reflexivity|].
  exact (proj1 (host_url_enables_the_popup
                  string (fun t => t) Samples.matches Samples.sort_by
                  (fun _ => "a minute ago"%string) (fun _ => "Jan 1, 2020"%string)
                  Samples.pause_ok Samples.resume_fails Samples.delete_ok
                  (Rejects NetworkError) Samples.add_ok Samples.message_of
                  "SYNO.DownloadStation.Task"%string (Some "http://h"%string)
                  Samples.props
                  {| shouldShowDropShadow := false; isAddingDownload := false |}
                  eq_refl)).
Defined.

(** * The retry policy of the proxy, with the endpoint's own failures *)

Section RetryPolicy.

Variable Auth_API_NAME : string.
Variable Auth_Login :
  nat -> SynologyClientSettings -> Z -> Settled (RestApiResponse AuthLoginResponse).
Variables T U : Type.
Variable fn : option string -> string -> T -> nat -> Called (RestApiResponse U).
Variable group : string.
Variable options : T.

Local Abbreviation wrapped := (wrappedFunction Auth_API_NAME Auth_Login T U fn group).
Local Abbreviation awaitLogin := (await_login Auth_API_NAME Auth_Login).
Local Abbreviation c1of c := (fst (fst (maybeLogin c))).
Local Abbreviation reqs c := (snd (fst (maybeLogin c))).
Local Abbreviation hof c := (snd (maybeLogin c)).

Lemma endpoint_throw_run i1 rest1 c n b data e :
  VersionStable i1 ->
  awaitLogin (hof c) = Fulfils (ClientSuccess data) ->
  fn (baseUrl_opt (settings (interfere i1 (c1of c)))) (sid data) options n
    = ThrowsNow e ->
  wrapped (i1 :: rest1) c n options b =
  emit (EvEnter b :: reqs c ++
          [EvFn (baseUrl_opt (settings (interfere i1 (c1of c)))) (sid data)
                (login_of (hof c))])
       (stop (interfere i1 (c1of c))
             (Resolved (Connection (ConnectionFailure_from e)))).
Proof.
  intros H1 HL HF.
  rewrite (wrapped_cons Auth_API_NAME Auth_Login T U fn group options). cbv zeta.
  rewrite HL, checkpoint1 by assumption. rewrite HF.
  now rewrite emit_emit.
Qed.

Lemma endpoint_reject_run i1 i2 rest2 c n b data e :
  VersionStable i1 ->
  awaitLogin (hof c) = Fulfils (ClientSuccess data) ->
  fn (baseUrl_opt (settings (interfere i1 (c1of c)))) (sid data) options n
    = Returns (Rejects e) ->
  wrapped (i1 :: i2 :: rest2) c n options b =
  emit (EvEnter b :: reqs c ++
          [EvFn (baseUrl_opt (settings (interfere i1 (c1of c)))) (sid data)
                (login_of (hof c))])
       (stop (interfere i2 (interfere i1 (c1of c)))
             (Resolved (Connection (ConnectionFailure_from e)))).
Proof.
  intros H1 HL HF.
  rewrite (wrapped_cons Auth_API_NAME Auth_Login T U fn group options). cbv zeta.
  rewrite HL, checkpoint1 by assumption. rewrite HF.
  now rewrite emit_emit.
Qed.

Lemma one_attempt_counts b c url s lg c' (st : Status (ClientRequestResult U)) :
  count_enter (trace (emit (EvEnter b :: reqs c ++ [EvFn url s lg]) (stop c' st)))
  = 1
  /\ count_fn (trace (emit (EvEnter b :: reqs c ++ [EvFn url s lg]) (stop c' st)))
     = 1.
Proof.
  unfold emit. cbn [trace stop]. rewrite app_nil_r.
  change (EvEnter b :: reqs c ++ [EvFn url s lg])
    with ([EvEnter b] ++ reqs c ++ [EvFn url s lg]).
  rewrite !count_enter_app, !count_fn_app.
  destruct (maybeLogin_requests c) as [-> ->]. split; reflexivity.
Qed.

(** C1, amended.  In a proxied call during which the settings version does
    not change:
    - if the login result is a connection failure or a failure response with
      code 106 or 105, or the endpoint response is a failure response with
      code 106 or 105, the cached login promise is discarded and the call is
      run again exactly once with retrying disabled; that second run enters
      [wrappedFunction] once, invokes [fn] at most once, never rejects, and
      resolves with what the caller gets;
    - if the endpoint call itself fails with a connection failure (the
      endpoint function throws, or its promise rejects and the call is
      resumed from that suspension), the error is classified and returned at
      once, whatever the retry flag: [wrappedFunction] is entered once, [fn]
      invoked once, and the call leaves the client, cached login included,
      as the other tasks left it. *)
Theorem routine_failure_retry_policy
    (c : SynologyClient) (n : nat) (i1 : list Action)
    (rest1 : list (list Action)) :
  Forall VersionStable (i1 :: rest1) ->
  (forall (c' : SynologyClient) (n' : nat) (rest : list (list Action))
          (result : ConnectionFailure + Z) (evs : list Event),
      ((exists loginResult,
          awaitLogin (hof c) = Fulfils loginResult /\
          failure_of loginResult = Some result /\
          c' = interfere i1 (c1of c) /\ rest = rest1 /\ n' = n /\ evs = reqs c)
       \/
       (exists data i2 code,
          awaitLogin (hof c) = Fulfils (ClientSuccess data) /\
          fn (baseUrl_opt (settings (interfere i1 (c1of c)))) (sid data) options n
            = Returns (Fulfils (RestFailure code)) /\
          result = inr code /\
          rest1 = i2 :: rest /\ c' = interfere i2 (interfere i1 (c1of c)) /\
          n' = S n /\
          evs = reqs c ++
                [EvFn (baseUrl_opt (settings (interfere i1 (c1of c)))) (sid data)
                      (login_of (hof c))])) ->
      match result with
      | inl _ => True
      | inr code => code = 106%Z \/ code = 105%Z
      end ->
      let first := wrapped (i1 :: rest1) c n options true in
      let second := wrapped rest (set_loginPromise None c') n' options false in
      first = emit (EvEnter true :: evs) second
      /\ loginPromise (set_loginPromise None c') = None
      /\ count_enter (trace first) = 2
      /\ count_enter (trace second) = 1
      /\ count_fn (trace second) <= 1
      /\ (forall e, status first <> Rejected e)
      /\ (2 <= List.length rest ->
          exists r, status second = Resolved r /\ status first = Resolved r))
  /\ (forall (b : bool) (data : AuthLoginResponse) (e : JsError),
        awaitLogin (hof c) = Fulfils (ClientSuccess data) ->
        fn (baseUrl_opt (settings (interfere i1 (c1of c)))) (sid data) options n
          = ThrowsNow e
        \/ (fn (baseUrl_opt (settings (interfere i1 (c1of c)))) (sid data) options n
              = Returns (Rejects e) /\ rest1 <> []) ->
        let r := wrapped (i1 :: rest1) c n options b in
        status r = Resolved (Connection (ConnectionFailure_from e))
        /\ count_enter (trace r) = 1
        /\ count_fn (trace r) = 1
        /\ (final r = interfere i1 (c1of c)
            \/ exists i2 rest2,
                 rest1 = i2 :: rest2
                 /\ final r = interfere i2 (interfere i1 (c1of c)))).
Proof.
  intros HS. split.
  - intros c' n' rest result evs Hmet Hroutine.
    exact (routine_failure_retried_exactly_once
             Auth_API_NAME Auth_Login T U fn group options
             c c' n n' i1 rest1 rest result evs HS Hmet Hroutine).
  - intros b data e HL HF r. subst r.
    inversion HS as [|? ? H1 HS1]; subst.
    destruct HF as [HF|[HF Hne]].
    + rewrite (endpoint_throw_run i1 rest1 c n b data e H1 HL HF).
      destruct (one_attempt_counts b c
                  (baseUrl_opt (settings (interfere i1 (c1of c)))) (sid data)
                  (login_of (hof c)) (interfere i1 (c1of c))
                  (Resolved (Connection (ConnectionFailure_from e))))
        as [He Hf].
      split; [reflexivity|]. split; [exact He|]. split; [exact Hf|].
      left. reflexivity.
    + destruct rest1 as [|i2 rest2]; [congruence|].
      rewrite (endpoint_reject_run i1 i2 rest2 c n b data e H1 HL HF).
      destruct (one_attempt_counts b c
                  (baseUrl_opt (settings (interfere i1 (c1of c)))) (sid data)
                  (login_of (hof c)) (interfere i2 (interfere i1 (c1of c)))
                  (Resolved (Connection (ConnectionFailure_from e))))
        as [He Hf].
      split; [reflexivity|]. split; [exact He|]. split; [exact Hf|].
      right. exists i2, rest2. split; reflexivity.
Qed.

End RetryPolicy.

(** C1, amended, at the scenario "an authenticated call fails with code 106":
    the endpoint's first response has code 106, the call is run once more and
    succeeds. *)
Lemma routine_failure_retry_policy_witness :
  Forall VersionStable [[]; []; []; []]
  /\ fn_fails_once 106 (Some "http://h"%string) "sid" tt 0
     = Returns (Fulfils (RestFailure 106))
  /\ count_enter
       (trace (wrappedFunction "SYNO.API.Auth" login_ok unit nat
                 (fn_fails_once 106) "Task" [[]; []; []; []] fresh_client 0 tt true))
     = 2
  /\ status (wrappedFunction "SYNO.API.Auth" login_ok unit nat
               (fn_fails_once 106) "Task" [[]; []; []; []] fresh_client 0 tt true)
     = Resolved (ClientSuccess 1).
Proof.
  assert (HS : Forall VersionStable [[]; []; []; []])
    by (repeat constructor; apply nil_stable).
  split; [exact HS|]. split; [reflexivity|].
  destruct (routine_failure_retry_policy
              "SYNO.API.Auth" login_ok unit nat (fn_fails_once 106) "Task" tt
              fresh_client 0 [] [[]; []; []] HS) as [Hretry _].
  destruct (Hretry
              (interfere [] (interfere [] (fst (fst (maybeLogin fresh_client)))))
              1 [[]; []] (inr 106%Z)
              (snd (fst (maybeLogin fresh_client)) ++
                 [EvFn (Some "http://h"%string) "sid" (Some 0)]))
    as (_ & _ & Henter & _ & _ & _ & Hres).
  - right. exists {| sid := "sid" |}, [], 106%Z.
    repeat split; reflexivity.
  - left. reflexivity.
  - split; [exact Henter|].
    destruct Hres as (r & Hr & Hfirst); [simpl; lia|].
    rewrite Hfirst, <- Hr. reflexivity.
Defined.

(** C1 as stated fails: the endpoint call ends in a connection failure (its
    promise rejects with a [NetworkError]) while the settings version does
    not change, and the call is not run again: [wrappedFunction] is entered
    once, the endpoint function invoked once, the classified failure returned
    and the cached login promise kept. *)
Lemma endpoint_connection_failure_counterexample :
  let r := wrappedFunction "SYNO.API.Auth" login_ok unit nat fn_unreachable "Task"
             [[]; []; []; []] logged_client 0 tt true in
  Forall VersionStable [[]; []; []; []]
  /\ loginPromise logged_client = Some P0
  /\ fn_unreachable (Some "http://h"%string) "sid" tt 0
     = Returns (Rejects NetworkError)
  /\ status r
     = Resolved (Connection
                   (transport_failure
                      probable_wrong_url_or_no_connection_or_cert_error
                      NetworkError))
  /\ count_enter (trace r) = 1
  /\ count_fn (trace r) = 1
  /\ loginPromise (final r) = Some P0.
Proof.
  split; [repeat constructor; apply nil_stable|].
  vm_compute. repeat split.
Qed.
